(** * moleculer-web: the request dispatch pipeline of [src/index.js]

    A shallow embedding of the API gateway service: route construction
    ([createRoute]), URL dispatch ([httpHandler]), alias resolution
    ([resolveAlias]), the whitelist check ([checkWhitelist]) and the
    promise chain of [callAction] (body parsing, parameter merge, action
    lookup, authorization, invocation, response encoding, error mapping).

    JavaScript values are an inductive type, objects are finite maps from
    property names to values, and everything the gateway obtains from another
    package (nanomatch, body-parser, serve-static, querystring, the moleculer
    broker, the error classes) is a field of an environment record [Env]; the
    tests of lodash and the operations of the language ([Object.assign],
    [Array.prototype.find], the status check of [res.writeHead]) are written
    out.  The effects of a request on the HTTP response and on the
    collaborators are recorded, in order, as a list of events. *)

From Stdlib Require Import Ascii String.
From stdpp Require Import gmap strings list fin_maps pretty.

Set Warnings "-register-all".
Local Open Scope string_scope.
Local Open Scope Z_scope.
Local Open Scope list_scope.

(** ** JavaScript strings *)

Module JSString.

(** [s.startsWith(p)] *)
Fixpoint startsWith (s p : string) {struct p} : bool :=
  match p, s with
  | EmptyString, _ => true
  | String _ _, EmptyString => false
  | String a p', String b s' => Ascii.eqb a b && startsWith s' p'
  end.

(** [s.slice(n)] for an index [0 <= n] *)
Fixpoint slice_from (n : nat) (s : string) : string :=
  match n, s with
  | O, _ => s
  | S _, EmptyString => EmptyString
  | S n', String _ s' => slice_from n' s'
  end.

(** [s.substring(0, n)] *)
Fixpoint substring_to (n : nat) (s : string) : string :=
  match n, s with
  | O, _ => EmptyString
  | S _, EmptyString => EmptyString
  | S n', String a s' => String a (substring_to n' s')
  end.

(** [s.endsWith(suf)] *)
Definition endsWith (s suf : string) : bool :=
  (String.length suf <=? String.length s)%nat
  && String.eqb (slice_from (String.length s - String.length suf) s) suf.

(** [s.slice(0, -1)] *)
Definition drop_last (s : string) : string :=
  substring_to (String.length s - 1) s.

(** [s.indexOf(pat, from)]; [None] stands for [-1] *)
Definition indexOf (s pat : string) (from : nat) : option nat :=
  String.index from pat s.

(** [s.replace(/c/, d)] for a one-character pattern without the [g] flag:
    only the first occurrence is replaced *)
Fixpoint replace_first (c d : ascii) (s : string) : string :=
  match s with
  | EmptyString => EmptyString
  | String a s' =>
      if Ascii.eqb a c then String d s' else String a (replace_first c d s')
  end.

(** [s.replace(/c/g, d)]: every occurrence is replaced *)
Fixpoint replace_all (c d : ascii) (s : string) : string :=
  match s with
  | EmptyString => EmptyString
  | String a s' =>
      String (if Ascii.eqb a c then d else a) (replace_all c d s')
  end.

(** the characters of a string, for statements by position *)
Fixpoint chars (s : string) : list ascii :=
  match s with
  | EmptyString => []
  | String a s' => a :: chars s'
  end.

End JSString.

(** ** JavaScript values *)

(** The class of an object decides what it inherits and how the type tests of
    the gateway see it. *)
Inductive jsclass :=
  | CPlain                      (* object literal, [Object.prototype] *)
  | CNullProto                  (* [Object.create(null)], nothing inherited *)
  | CError (name : string)      (* instance of an Error class of that name *)
  | CStream                     (* instance of [stream.Stream] *)
  | CString (prim : string).    (* boxed [String] *)

(** Numbers are restricted to integers: the gateway only compares and forwards
    them. *)
Inductive jsval :=
  | JUndefined
  | JNull
  | JBool (b : bool)
  | JNum (n : Z)
  | JStr (s : string)
  | JFunction (name : string)
  | JRegExp (source flags : string)
  | JBuffer (bytes : list Byte.byte)
  | JArray (elems : list jsval)
  | JObject (c : jsclass) (props : gmap string jsval).

(** The outcome of a call that may throw; the thrown value is any JavaScript
    value. *)
Inductive result (A : Type) :=
  | Ok (a : A)
  | Throw (err : jsval).
Arguments Ok {A} a.
Arguments Throw {A} err.

(** The object [params] of [callAction]: it is made by the literal [{}] and
    filled by [Object.assign].  [params_proto] is [None] as long as its
    prototype is [Object.prototype], and [Some p] once an assignment to
    [__proto__] has replaced the prototype by [p], an object or [null]. *)
Record parameters := {
  params_own : gmap string jsval;
  params_proto : option jsval
}.

(** The literal [{}] *)
Global Instance parameters_empty : Empty parameters :=
  {| params_own := ∅; params_proto := None |}.

Module JS.

(** ToBoolean *)
Definition truthy (v : jsval) : bool :=
  match v with
  | JUndefined | JNull => false
  | JBool b => b
  | JNum n => negb (n =? 0)
  | JStr s => negb (String.eqb s "")
  | _ => true
  end.

(** [a || b] *)
Definition or (a b : jsval) : jsval := if truthy a then a else b.

(** [a && b] *)
Definition and (a b : jsval) : jsval := if truthy a then b else a.

(** [l.find(p)]: the first element on which the callback returns a truthy
    value, [undefined] when there is none; a callback that throws ends the
    search with what it threw *)
Fixpoint Array_find (p : jsval → result jsval) (l : list jsval)
  : result jsval :=
  match l with
  | [] => Ok JUndefined
  | x :: l' =>
      match p x with
      | Ok v => if truthy v then Ok x else Array_find p l'
      | Throw err => Throw err
      end
  end.

(** [typeof v] *)
Definition typeof (v : jsval) : string :=
  match v with
  | JUndefined => "undefined"
  | JBool _ => "boolean"
  | JNum _ => "number"
  | JStr _ => "string"
  | JFunction _ => "function"
  | _ => "object"
  end.

(** [v == null] *)
Definition is_nullish (v : jsval) : bool :=
  match v with JUndefined | JNull => true | _ => false end.

(** [Array.isArray(v)] *)
Definition isArray (v : jsval) : bool :=
  match v with JArray _ => true | _ => false end.

(** [Buffer.isBuffer(v)] *)
Definition isBuffer (v : jsval) : bool :=
  match v with JBuffer _ => true | _ => false end.

(** [isStream(v)]: [v instanceof Stream] *)
Definition isStream (v : jsval) : bool :=
  match v with JObject CStream _ => true | _ => false end.

(** lodash [_.isObject]: [typeof] is object or function, and not null *)
Definition isObject (v : jsval) : bool :=
  match v with
  | JFunction _ | JRegExp _ _ | JBuffer _ | JArray _ | JObject _ _ => true
  | _ => false
  end.

(** lodash [_.isString]: primitive or boxed string *)
Definition isString (v : jsval) : bool :=
  match v with JStr _ | JObject (CString _) _ => true | _ => false end.

(** lodash [_.isNumber] *)
Definition isNumber (v : jsval) : bool :=
  match v with JNum _ => true | _ => false end.

(** lodash [_.isRegExp] *)
Definition isRegExp (v : jsval) : bool :=
  match v with JRegExp _ _ => true | _ => false end.

Definition native (name : string) : jsval := JFunction name.

(** The members every ordinary object inherits from [Object.prototype]. *)
Definition Object_prototype_members : gmap string jsval :=
  list_to_map
    [ ("constructor", native "Object");
      ("toString", native "toString");
      ("toLocaleString", native "toLocaleString");
      ("valueOf", native "valueOf");
      ("hasOwnProperty", native "hasOwnProperty");
      ("isPrototypeOf", native "isPrototypeOf");
      ("propertyIsEnumerable", native "propertyIsEnumerable");
      ("__defineGetter__", native "__defineGetter__");
      ("__defineSetter__", native "__defineSetter__");
      ("__lookupGetter__", native "__lookupGetter__");
      ("__lookupSetter__", native "__lookupSetter__") ].

Definition Object_prototype : jsval :=
  JObject CNullProto Object_prototype_members.

(** The members an error inherits from the prototype of its class, before
    those of [Object.prototype]. *)
Definition Error_prototype_members (name : string) : gmap string jsval :=
  list_to_map
    [ ("name", JStr name); ("message", JStr "");
      ("constructor", native name) ].

(** What an object of class [c] finds on its prototype chain under key [k].
    Streams and boxed strings are given the members of [Object.prototype]
    only. *)
Definition inherited (c : jsclass) (k : string) : option jsval :=
  match c with
  | CNullProto => None
  | CError name =>
      if String.eqb k "__proto__"
      then Some (JObject CPlain (Error_prototype_members name))
      else (Error_prototype_members name ∪ Object_prototype_members) !! k
  | _ =>
      if String.eqb k "__proto__" then Some Object_prototype
      else Object_prototype_members !! k
  end.

(** [k in Object(v)]: own or inherited.  Values that are not [JObject]
    expose no property here; the gateway reads properties of objects
    only. *)
Definition has_in (v : jsval) (k : string) : bool :=
  match v with
  | JObject c props =>
      match props !! k with
      | Some _ => true
      | None => match inherited c k with Some _ => true | None => false end
      end
  | _ => false
  end.

(** [v[k]] for an object [v] *)
Definition get (v : jsval) (k : string) : jsval :=
  match v with
  | JObject c props =>
      match props !! k with
      | Some x => x
      | None => default JUndefined (inherited c k)
      end
  | _ => JUndefined
  end.

(** ToString, as used by template literals and by [==] against a string.
    A native function prints as its source placeholder, an array as its
    elements joined by commas, an error as [name: message] (both taken as
    strings), a buffer as its bytes read as characters.  Objects that define
    a [toString] or [valueOf] of their own are outside the model. *)
Fixpoint toString (v : jsval) : string :=
  match v with
  | JUndefined => "undefined"
  | JNull => "null"
  | JBool true => "true"
  | JBool false => "false"
  | JNum n => pretty n
  | JStr s => s
  | JFunction name => "function " +:+ name +:+ "() { [native code] }"
  | JRegExp source flags => "/" +:+ source +:+ "/" +:+ flags
  | JBuffer bytes =>
      string_of_list_ascii (map Ascii.ascii_of_byte bytes)
  | JArray elems =>
      (fix join (l : list jsval) : string :=
         match l with
         | [] => ""
         | [x] => if is_nullish x then "" else toString x
         | x :: l' =>
             (if is_nullish x then "" else toString x) +:+ "," +:+ join l'
         end) elems
  | JObject (CString prim) _ => prim
  | JObject (CError _) _ =>
      let name := match get v "name" with JStr n => n | _ => "Error" end in
      let msg := match get v "message" with JStr m => m | _ => "" end in
      if String.eqb name "" then msg
      else if String.eqb msg "" then name
      else name +:+ ": " +:+ msg
  | JObject _ _ => "[object Object]"
  end.

(** [v == s] for a string literal [s] that is not numeric (such as
    ["Buffer"]): strings compare by content, objects by their primitive
    value, numbers, booleans, [null] and [undefined] never match. *)
Definition loose_eq_string (v : jsval) (s : string) : bool :=
  match v with
  | JUndefined | JNull | JBool _ | JNum _ => false
  | _ => String.eqb (toString v) s
  end.

(** The own enumerable properties of a value, as [Object.assign] copies
    them: the properties of an object, the indexed elements of an array, a
    buffer or a boxed string; nothing for the other values. *)
Definition indexed {A} (f : A → jsval) (l : list A) : gmap string jsval :=
  list_to_map (imap (λ i x, (pretty i, f x)) l).

Definition own_enumerable (v : jsval) : gmap string jsval :=
  match v with
  | JObject (CString prim) props =>
      props ∪ indexed (λ a, JStr (String a "")) (JSString.chars prim)
  | JObject _ props => props
  | JStr prim => indexed (λ a, JStr (String a "")) (JSString.chars prim)
  | JArray elems => indexed id elems
  | JBuffer bytes => indexed (λ b, JNum (Z.of_N (Byte.to_N b))) bytes
  | _ => ∅
  end.

(** lodash [_.pick(v, keys)]: the listed keys that are [in] the value, own
    or inherited, with their values *)
Definition pick (v : jsval) (keys : list string) : jsval :=
  JObject CPlain
    (list_to_map
       (omap (λ k, if has_in v k then Some (k, get v k) else None) keys)).

(** [new TypeError(message)] *)
Definition TypeError (message : string) : jsval :=
  JObject (CError "TypeError") {[ "message" := JStr message ]}.

(** [new RangeError(message)] *)
Definition RangeError (message : string) : jsval :=
  JObject (CError "RangeError") {[ "message" := JStr message ]}.

(** ToInt32, the conversion behind [n |= 0] *)
Definition ToInt32 (n : Z) : Z :=
  let m := n mod 2 ^ 32 in
  if m <? 2 ^ 31 then m else m - 2 ^ 32.

(** Whether an assignment to [__proto__] on an object with that prototype
    still finds the accessor of [Object.prototype]: it does not when the
    chain was cut ([null], an object without prototype) or when the prototype
    has a [__proto__] property of its own, which hides the accessor. *)
Definition keeps_proto_accessor (proto : option jsval) : bool :=
  match proto with
  | None => true
  | Some JNull | Some (JObject CNullProto _) => false
  | Some (JObject _ props) =>
      match props !! "__proto__" with Some _ => false | None => true end
  | Some _ => true
  end.

(** What the setter of [__proto__] accepts as a prototype: an object or
    [null]; it ignores every other value. *)
Definition is_prototype (v : jsval) : bool :=
  isObject v || match v with JNull => true | _ => false end.

(** [Object.assign(target, source)].  Each own enumerable property of the
    source is assigned to the target ([target[key] = value]), not defined on
    it: a key other than [__proto__] becomes an own property of the target;
    the key [__proto__] goes to the accessor the target inherits from
    [Object.prototype], which replaces the prototype of the target when the
    value is an object or [null] and does nothing otherwise, and becomes an
    own property only when the target has lost that accessor or already has
    such a property.  A prototype installed in this way is taken to hold
    writable data properties only, as the arrays and objects of a parsed
    query string or body do (an assignment to a property that the new
    prototype makes read-only would throw). *)
Definition assign (target : parameters) (source : jsval) : parameters :=
  let src := own_enumerable source in
  let own := delete "__proto__" src ∪ params_own target in
  match src !! "__proto__" with
  | None => {| params_own := own; params_proto := params_proto target |}
  | Some v =>
      if match params_own target !! "__proto__" with
         | Some _ => true
         | None => negb (keeps_proto_accessor (params_proto target))
         end
      then {| params_own := <["__proto__" := v]> own;
              params_proto := params_proto target |}
      else if is_prototype v
      then {| params_own := own; params_proto := Some v |}
      else {| params_own := own; params_proto := params_proto target |}
  end.

End JS.

(** ** Collaborators, requests and routes *)

(** [req]: the parts of the incoming message the gateway reads or that a body
    parser writes. *)
Record request := {
  req_method : string;
  req_url : string;
  req_headers : gmap string jsval;
  req_body : jsval
}.

(** A connect-style middleware [parser(req, res, next)]: it may assign
    [req.body] and calls [next(err)] once; the second component is the
    argument of [next] ([JUndefined] for a plain [next()]). *)
Definition parser : Type := request → request * jsval.

(** What [broker.getAction(name)] returns when it finds the action: the fields
    of [endpoint.action] the gateway reads. *)
Record endpoint := {
  ep_name : string;
  ep_params : jsval;
  ep_responseType : jsval
}.

(** The context made by [broker.createNewContext]. *)
Record context := {
  ctx_id : jsval;
  ctx_requestID : jsval;
  ctx_meta_user : jsval
}.

(** Options of [nanomatch.isMatch] *)
Record nm_options := { unixify : bool }.

(** Everything [index.js] requires or reaches through [this.broker].  The
    collaborators are functions of their arguments, and the calls that can
    throw return a [result]: the glob matcher (nanomatch refuses a name that
    is not a string, and some patterns), the parser factories (body-parser
    refuses some options), the two servers made by [created].
    [RegExp_test] is the answer of [test] for an expression that keeps no
    position between two calls, that is, one without the [g] and [y] flags;
    the position ([lastIndex]) such a flag makes the expression keep is not
    represented, and the statements about masks leave those flags out. *)
Record Env := {
  (* https.createServer(settings.https, handler) *)
  https_createServer : jsval → result unit;
  (* serveStatic(folder, options), the options having fallthrough = false *)
  serveStatic : jsval → jsval → result (request → bool);
  (* nanomatch.isMatch(str, pattern, options) *)
  nanomatch_isMatch : jsval → jsval → nm_options → result bool;
  (* RegExp.prototype.test, by source and flags of the expression *)
  RegExp_test : string → string → jsval → bool;
  (* querystring.parse *)
  queryString_parse : string → jsval;
  (* bodyParser[key]: the factory of that name, if the package has one;
     called with the options, it returns the parser or throws *)
  bodyParser : string → option (jsval → result parser);
  (* JSON.stringify(value, null, indent) *)
  JSON_stringify : jsval → option nat → result jsval;
  (* Buffer.from(value) *)
  Buffer_from : jsval → result jsval;
  (* this.broker.getAction(actionName) *)
  broker_getAction : jsval → option endpoint;
  (* this.broker.validator, with its validate(params, schema) *)
  broker_validator : option (parameters → jsval → result unit);
  (* this.broker.createNewContext(action, null, params, {}) *)
  broker_createNewContext : string → parameters → context;
  (* ctx.call("auth.resolveUser", params) *)
  call_auth : context → gmap string jsval → result jsval;
  (* ctx.call(endpoint, params) *)
  call_action : context → endpoint → parameters → result jsval;
  (* the error classes of moleculer and of ./errors *)
  new_ServiceNotFoundError : string → jsval → jsval;
  new_CustomError : string → Z → jsval;
  new_InvalidRequestBodyError : jsval → jsval → jsval;
  new_InvalidResponseType : string → jsval
}.

(** One entry of [settings.routes], an object. *)
Record route_opts := {
  opt_path : option string;
  opt_whitelist : jsval;
  opt_authorization : jsval;
  opt_aliases : jsval;
  (* the keys of [bodyParsers] in their order, [None] when it is falsy *)
  opt_bodyParsers : option (list (string * jsval))
}.

(** The object [createRoute] returns. *)
Record route := {
  opts : route_opts;
  authorization : jsval;
  whitelist : jsval;
  hasWhitelist : bool;
  aliases : jsval;
  hasAliases : bool;
  parsers : option (list parser);
  path : string
}.

(** The service settings [created] and [createRoute] read. *)
Record settings := {
  set_https : jsval;
  set_path : option string;
  (* [None] when [settings.routes] is not an array *)
  set_routes : option (list route_opts);
  set_assets : jsval
}.

(** The fields [created] installs on the service.  The static middleware
    [serve] is represented by its answer to a request: [true] when it
    answers the request itself, [false] when it calls the fallback it was
    given. *)
Record service := {
  svc_isHTTPS : bool;
  svc_routes : option (list route);
  svc_serve : option (request → bool)
}.

(** ** Effects *)

(** What a request does to the response object and to the collaborators, in
    the order of the calls.  Logging is left out. *)
Inductive event :=
  | EvParser (index : nat)                          (* parser(req, res, next) *)
  | EvValidate (params : parameters) (schema : jsval)
  | EvCreateContext (action : string) (params : parameters)
  | EvMetricStart (ctx : context)                   (* ctx._metricStart *)
  | EvMetricFinish (ctxid : jsval)                  (* ctx._metricFinish *)
  | EvCallAuth (params : gmap string jsval)
  | EvCallAction (ctx : context) (ep : endpoint) (params : parameters)
  | EvStatusCode (code : Z)                         (* res.statusCode = code *)
  | EvSetHeader (name : string) (value : jsval)     (* res.setHeader *)
  | EvWriteHead (code : Z) (headers : list (string * jsval))
  | EvEnd (chunk : jsval)                           (* res.end(chunk) *)
  | EvPipe (source : jsval)                         (* source.pipe(res) *)
  | EvServeStatic.                                  (* this.serve(req, res, _) *)

(** A promise chain: the events so far, and how the promise settled. *)
Definition Chain (A : Type) : Type := list event * result A.

Module Promise.

Definition resolve {A} (a : A) : Chain A := ([], Ok a).
Definition reject {A} (err : jsval) : Chain A := ([], Throw err).
Definition emit (ev : event) : Chain unit := ([ev], Ok tt).
Definition lift {A} (r : result A) : Chain A := ([], r).

(** [.then(f)]: a rejected promise skips [f] *)
Definition then_ {A B} (c : Chain A) (f : A → Chain B) : Chain B :=
  match c with
  | (t, Ok a) => let '(t', r) := f a in (t ++ t', r)
  | (t, Throw err) => (t, Throw err)
  end.

(** [.catch(h)] at the end of the chain *)
Definition catch {A} (c : Chain A) (h : jsval → list event) : list event :=
  match c with
  | (t, Ok _) => t
  | (t, Throw err) => t ++ h err
  end.

(** [try { c } catch (err) { return h(err) }] inside a handler *)
Definition try_catch {A} (c : Chain A) (h : jsval → Chain A) : Chain A :=
  match c with
  | (t, Ok a) => (t, Ok a)
  | (t, Throw err) => let '(t', r) := h err in (t ++ t', r)
  end.

End Promise.

(** ** The response object

    [res] belongs to Node's [http] module.  Of its methods only [writeHead]
    is given a body here, for the two checks it makes before it writes
    anything. *)

Module ServerResponse.

(** A character a header value may hold: Node refuses the control
    characters other than the tab. *)
Definition header_char (a : ascii) : bool :=
  let n := nat_of_ascii a in
  (n =? 9)%nat || ((32 <=? n)%nat && negb (n =? 127)%nat).

(** A value Node accepts for a header: not [undefined], and printed without
    a refused character. *)
Definition header_value (v : jsval) : bool :=
  match v with
  | JUndefined => false
  | _ => forallb header_char (JSString.chars (JS.toString v))
  end.

(** A status [writeHead] accepts: the number is truncated to 32 bits
    ([statusCode |= 0]) and must then lie between 100 and 999. *)
Definition valid_status (code : Z) : bool :=
  (100 <=? JS.ToInt32 code) && (JS.ToInt32 code <=? 999).

(** [res.writeHead(statusCode, headers)] before the headers are sent: it
    throws a RangeError on a status it does not accept and a TypeError on a
    header value it does not accept, and writes nothing then. *)
Definition writeHead (code : Z) (headers : list (string * jsval))
  : result event :=
  if valid_status code then
    if forallb (λ kv, header_value kv.2) headers
    then Ok (EvWriteHead code headers)
    else Throw (JS.TypeError "Invalid value for header")
  else Throw (JS.RangeError ("Invalid status code: " +:+ pretty code)).

End ServerResponse.

Notation "x <- c1 ;; c2" := (Promise.then_ c1 (λ x, c2))
  (at level 100, c1 at next level, right associativity).
Notation "c1 ;;; c2" := (Promise.then_ c1 (λ _, c2))
  (at level 100, right associativity).

(** ** The gateway service *)

Section Gateway.

Context (env : Env).

(** [name: "api-gw"] *)
Definition service_name : string := "api-gw".

(** [x || d] for an optional string setting *)
Definition str_or (x : option string) (d : string) : string :=
  match x with
  | Some s => if String.eqb s "" then d else s
  | None => d
  end.

(** The [forEach] over [Object.keys(bps)] in [createRoute]: a key whose
    value is [false] is skipped, every other key calls the factory
    [bodyParser[key]], with the value as options when it is an object.  The
    loop ends at the first key that names no factory or whose factory
    throws. *)
Fixpoint createParsers (bps : list (string * jsval)) : result (list parser) :=
  match bps with
  | [] => Ok []
  | (key, v) :: rest =>
      let o := if JS.isObject v then v else JUndefined in
      match v with
      | JBool false => createParsers rest
      | _ =>
          match bodyParser env key with
          | None => Throw (JS.TypeError "bodyParser[key] is not a function")
          | Some factory =>
              match factory o with
              | Throw err => Throw err
              | Ok p =>
                  match createParsers rest with
                  | Ok ps => Ok (p :: ps)
                  | Throw err => Throw err
                  end
              end
          end
      end
  end.

(** [createRoute(opts)] *)
Definition createRoute (st : settings) (o : route_opts) : result route :=
  let whitelist := opt_whitelist o in
  let aliases := opt_aliases o in
  let hasAliases :=
    JS.truthy aliases && (0 <? size (JS.own_enumerable aliases))%nat in
  let path := str_or (set_path st) "" +:+ str_or (opt_path o) "" in
  let path := str_or (Some path) "/" in
  let finish parsers :=
    Ok {| opts := o;
          authorization := opt_authorization o;
          whitelist := whitelist;
          hasWhitelist := JS.isArray whitelist;
          aliases := aliases;
          hasAliases := hasAliases;
          parsers := parsers;
          path := path |} in
  match opt_bodyParsers o with
  | None => finish None
  | Some bps =>
      match createParsers bps with
      | Ok ps => finish (Some ps)
      | Throw err => Throw err
      end
  end.

(** [this.settings.routes.map(route => this.createRoute(route))] *)
Fixpoint createRoutes (st : settings) (l : list route_opts)
  : result (list route) :=
  match l with
  | [] => Ok []
  | o :: rest =>
      match createRoute st o with
      | Throw err => Throw err
      | Ok r =>
          match createRoutes st rest with
          | Ok rs => Ok (r :: rs)
          | Throw err => Throw err
          end
      end
  end.

(** [settings.https && settings.https.key && settings.https.cert] *)
Definition wants_https (st : settings) : bool :=
  JS.truthy
    (JS.and (set_https st)
       (JS.and (JS.get (set_https st) "key") (JS.get (set_https st) "cert"))).

(** Create HTTP or HTTPS server.  [http.createServer(handler)] does not
    throw; [https.createServer] does when it cannot use the key or the
    certificate. *)
Definition createServer (st : settings) : result bool :=
  if wants_https st then
    match https_createServer env (set_https st) with
    | Ok _ => Ok true
    | Throw err => Throw err
    end
  else Ok false.

(** [const opts = assets.options || {}; opts.fallthrough = false]: the file
    is in strict mode, where the assignment throws on a primitive.  On an
    array, a function, a regular expression or a buffer the new property has
    no representation here and the value is passed on as it is. *)
Definition static_options (assets : jsval) : result jsval :=
  match JS.or (JS.get assets "options") (JObject CPlain ∅) with
  | JObject c props => Ok (JObject c (<["fallthrough" := JBool false]> props))
  | JBool _ | JNum _ | JStr _ =>
      Throw (JS.TypeError "Cannot create property 'fallthrough'")
  | opts => Ok opts
  end.

(** Create static server middleware *)
Definition createStatic (st : settings) : result (option (request → bool)) :=
  if JS.truthy (set_assets st) then
    match static_options (set_assets st) with
    | Throw err => Throw err
    | Ok opts =>
        match serveStatic env (JS.get (set_assets st) "folder") opts with
        | Ok serve => Ok (Some serve)
        | Throw err => Throw err
        end
    end
  else Ok None.

(** [created()]: the server, the static middleware, then the routes; the
    first of these steps that throws ends it. *)
Definition created (st : settings) : result service :=
  match createServer st with
  | Throw err => Throw err
  | Ok secure =>
      match createStatic st with
      | Throw err => Throw err
      | Ok serve =>
          match set_routes st with
          | None =>
              Ok {| svc_isHTTPS := secure; svc_routes := None;
                    svc_serve := serve |}
          | Some l =>
              match createRoutes st l with
              | Ok rs =>
                  Ok {| svc_isHTTPS := secure; svc_routes := Some rs;
                        svc_serve := serve |}
              | Throw err => Throw err
              end
          end
      end
  end.

(** [resolveAlias(route, actionName, method = "GET")] *)
Definition resolveAlias (r : route) (actionName : string)
    (method : option string) : jsval :=
  let method := default "GET" method in
  let match_ := method +:+ " " +:+ actionName in
  let res := JS.or (JS.get (aliases r) match_) (JS.get (aliases r) actionName) in
  if JS.truthy res then res else JStr actionName.

(** The callback given to [find] in [checkWhitelist]; it returns
    [undefined] for a mask that is neither a string nor a RegExp, and throws
    what the glob matcher throws. *)
Definition mask_test (action mask : jsval) : result jsval :=
  if JS.isString mask then
    match nanomatch_isMatch env action mask {| unixify := false |} with
    | Ok b => Ok (JBool b)
    | Throw err => Throw err
    end
  else
    match mask with
    | JRegExp source flags => Ok (JBool (RegExp_test env source flags action))
    | _ => Ok JUndefined
    end.

(** [checkWhitelist(route, action)]; calling [find] on a whitelist that is
    not an array throws. *)
Definition checkWhitelist (r : route) (action : jsval) : result bool :=
  match whitelist r with
  | JArray masks =>
      match JS.Array_find (mask_test action) masks with
      | Ok found => Ok (negb (JS.is_nullish found))
      | Throw err => Throw err
      end
  | _ => Throw (JS.TypeError "route.whitelist.find is not a function")
  end.

(** *** The stages of [callAction] *)

(** Resolve aliases.  The source assigns [newActionName] to [actionName]
    when they differ, so the name is the resolved one in both cases. *)
Definition aliasStage (r : route) (actionName : string) (req : request)
  : jsval :=
  if hasAliases r then resolveAlias r actionName (Some (req_method req))
  else JStr actionName.

Definition not_available (actionName : jsval) : jsval :=
  new_ServiceNotFoundError env
    ("Action '" +:+ JS.toString actionName +:+ "' is not available!")
    actionName.

(** Whitelist check *)
Definition whitelistStage (r : route) (actionName : jsval) : Chain unit :=
  if hasWhitelist r then
    match checkWhitelist r actionName with
    | Ok true => Promise.resolve tt
    | Ok false => Promise.reject (not_available actionName)
    | Throw err => Promise.reject err
    end
  else Promise.resolve tt.

(** [Promise.mapSeries(route.parsers, parser => new Promise(...))]: the
    parsers are called one after the other on the same request; the first
    one that passes a truthy [err] to its callback rejects the series. *)
Fixpoint mapSeries (i : nat) (ps : list parser) (req : request)
  : Chain request :=
  match ps with
  | [] => Promise.resolve req
  | p :: rest =>
      Promise.emit (EvParser i) ;;;
      let '(req', err) := p req in
      if JS.truthy err then
        Promise.reject
          (new_InvalidRequestBodyError env
             (JS.get err "body") (JS.get err "message"))
      else mapSeries (S i) rest req'
  end.

(** [["POST", "PUT", "PATCH"].indexOf(req.method) !== -1] *)
Definition has_body_method (m : string) : bool :=
  existsb (String.eqb m) ["POST"; "PUT"; "PATCH"].

(** Parse body *)
Definition parseStage (r : route) (req : request) : Chain request :=
  match parsers r with
  | Some ps =>
      if has_body_method (req_method req) && (0 <? length ps)%nat
      then mapSeries 0 ps req
      else Promise.resolve req
  | None => Promise.resolve req
  end.

(** Merge params *)
Definition mergeParams (query body : jsval) : parameters :=
  let params := JS.assign ∅ query in
  if JS.isObject body then JS.assign params body else params.

(** Resolve action by name *)
Definition resolveStage (actionName : jsval) (params : parameters)
  : Chain endpoint :=
  match broker_getAction env actionName with
  | Some ep =>
      match broker_validator env with
      | Some validate =>
          if JS.truthy (ep_params ep) then
            Promise.emit (EvValidate params (ep_params ep)) ;;;
            Promise.lift (validate params (ep_params ep)) ;;;
            Promise.resolve ep
          else Promise.resolve ep
      | None => Promise.resolve ep
      end
  | None => Promise.reject (not_available actionName)
  end.

(** Create a new context for request *)
Definition contextStage (params : parameters) : Chain context :=
  let restAction := service_name +:+ ".rest" in
  Promise.emit (EvCreateContext restAction params) ;;;
  let ctx := broker_createNewContext env restAction params in
  let ctx := {| ctx_id := ctx_id ctx;
                ctx_requestID := ctx_id ctx;
                ctx_meta_user := ctx_meta_user ctx |} in
  Promise.emit (EvMetricStart ctx) ;;;
  Promise.resolve ctx.

(** Authorization *)
Definition authStage (r : route) (req : request) (query : jsval)
    (ctx : context) : Chain context :=
  if JS.truthy (authorization r) then
    let apiKey :=
      JS.or (JS.and query (JS.get query "apikey"))
            (default JUndefined (req_headers req !! "apikey")) in
    let params : gmap string jsval := {[ "apiKey" := apiKey ]} in
    Promise.emit (EvCallAuth params) ;;;
    user <- Promise.lift (call_auth env ctx params) ;;
    if JS.truthy user then
      Promise.resolve {| ctx_id := ctx_id ctx;
                         ctx_requestID := ctx_requestID ctx;
                         ctx_meta_user := user |}
    else Promise.reject (new_CustomError env "Forbidden" 403)
  else Promise.resolve ctx.

(** *** Response encoding *)

(** The seven branches of the [if]/[else if] cascade. *)
Inductive branch :=
  | BrNull | BrBuffer | BrEnvelope | BrStream | BrObject | BrString | BrOther.

(** The condition written at each branch, on its own. *)
Definition branch_cond (b : branch) (data : jsval) : bool :=
  match b with
  | BrNull => JS.is_nullish data
  | BrBuffer => JS.isBuffer data
  | BrEnvelope =>
      JS.isObject data && JS.loose_eq_string (JS.get data "type") "Buffer"
  | BrStream => JS.isStream data
  | BrObject => JS.isObject data || JS.isArray data
  | BrString => JS.isString data
  | BrOther => true
  end.

Definition set_content_type (v : jsval) : Chain unit :=
  Promise.emit (EvSetHeader "Content-Type" v).

Definition end_json (data : jsval) : Chain unit :=
  text <- Promise.lift (JSON_stringify env data None) ;;
  Promise.emit (EvEnd text).

(** The body of the [try] block. *)
Definition encode (responseType data : jsval) : Chain unit :=
  if JS.is_nullish data then
    Promise.emit (EvEnd JUndefined)
  else if JS.isBuffer data then
    set_content_type (JS.or responseType (JStr "application/octet-stream")) ;;;
    Promise.emit
      (EvSetHeader "Content-Length"
         (match data with
          | JBuffer bytes => JNum (Z.of_nat (length bytes))
          | _ => JUndefined
          end)) ;;;
    Promise.emit (EvEnd data)
  else if JS.isObject data
          && JS.loose_eq_string (JS.get data "type") "Buffer" then
    buf <- Promise.lift (Buffer_from env data) ;;
    set_content_type (JS.or responseType (JStr "application/octet-stream")) ;;;
    Promise.emit (EvEnd buf)
  else if JS.isStream data then
    set_content_type (JS.or responseType (JStr "application/octet-stream")) ;;;
    Promise.emit (EvPipe data)
  else if JS.isObject data || JS.isArray data then
    set_content_type (JS.or responseType (JStr "application/json")) ;;;
    end_json data
  else if JS.isString data then
    if negb (JS.truthy responseType) then
      set_content_type (JStr "application/json") ;;;
      end_json data
    else
      set_content_type responseType ;;;
      Promise.emit (EvEnd data)
  else
    set_content_type (JS.or responseType (JStr "application/json")) ;;;
    end_json data.

(** The branch the cascade takes. *)
Definition selected (data : jsval) : branch :=
  if JS.is_nullish data then BrNull
  else if JS.isBuffer data then BrBuffer
  else if JS.isObject data
          && JS.loose_eq_string (JS.get data "type") "Buffer" then BrEnvelope
  else if JS.isStream data then BrStream
  else if JS.isObject data || JS.isArray data then BrObject
  else if JS.isString data then BrString
  else BrOther.

(** What each branch does, branch by branch. *)
Definition branch_body (b : branch) (responseType data : jsval)
  : Chain unit :=
  match b with
  | BrNull => Promise.emit (EvEnd JUndefined)
  | BrBuffer =>
      set_content_type (JS.or responseType (JStr "application/octet-stream")) ;;;
      Promise.emit
        (EvSetHeader "Content-Length"
           (match data with
            | JBuffer bytes => JNum (Z.of_nat (length bytes))
            | _ => JUndefined
            end)) ;;;
      Promise.emit (EvEnd data)
  | BrEnvelope =>
      buf <- Promise.lift (Buffer_from env data) ;;
      set_content_type (JS.or responseType (JStr "application/octet-stream")) ;;;
      Promise.emit (EvEnd buf)
  | BrStream =>
      set_content_type (JS.or responseType (JStr "application/octet-stream")) ;;;
      Promise.emit (EvPipe data)
  | BrObject | BrOther =>
      set_content_type (JS.or responseType (JStr "application/json")) ;;;
      end_json data
  | BrString =>
      if JS.truthy responseType then
        set_content_type responseType ;;;
        Promise.emit (EvEnd data)
      else
        set_content_type (JStr "application/json") ;;;
        end_json data
  end.

(** The position of a branch in the cascade. *)
Definition branch_index (b : branch) : nat :=
  match b with
  | BrNull => 0 | BrBuffer => 1 | BrEnvelope => 2 | BrStream => 3
  | BrObject => 4 | BrString => 5 | BrOther => 6
  end.

(** A branch is taken when its condition holds and the condition of every
    branch written before it fails. *)
Definition eligible (b : branch) (data : jsval) : Prop :=
  branch_cond b data = true
  ∧ ∀ b', (branch_index b' < branch_index b)%nat → branch_cond b' data = false.

(** The handler of [ctx.call(endpoint, params).then(data => ...)] *)
Definition respond (ctx : context) (ep : endpoint) (data : jsval)
  : Chain unit :=
  Promise.emit (EvStatusCode 200) ;;;
  let responseType := ep_responseType ep in
  (if JS.truthy (ctx_requestID ctx)
   then Promise.emit (EvSetHeader "Request-Id" (ctx_requestID ctx))
   else Promise.resolve tt) ;;;
  Promise.try_catch (encode responseType data)
    (λ _, Promise.reject (new_InvalidResponseType env (JS.typeof data))) ;;;
  Promise.emit (EvMetricFinish (ctx_id ctx)).

(** Call the action *)
Definition invokeStage (ctx : context) (ep : endpoint)
    (params : parameters) : Chain unit :=
  Promise.emit (EvCallAction ctx ep params) ;;;
  data <- Promise.lift (call_action env ctx ep params) ;;
  respond ctx ep data.

(** *** Error handling *)

Definition error_fields : list string := ["name"; "message"; "code"; "data"].

(** [const headers = {...}; if (err.ctx) headers["Request-Id"] = err.ctx.id] *)
Definition error_headers (err : jsval) : list (string * jsval) :=
  let ctx := JS.get err "ctx" in
  [("Content-type", JStr "application/json")]
  ++ (if JS.truthy ctx then [("Request-Id", JS.get ctx "id")] else []).

(** [_.isNumber(err.code) ? err.code : 500] *)
Definition error_code (err : jsval) : Z :=
  match JS.get err "code" with JNum n => n | _ => 500 end.

(** [if (err.ctx) err.ctx._metricFinish(null, err.ctx.metrics)]: nothing is
    called when what the error carries as context has no such method (the
    call then throws). *)
Definition error_metrics (err : jsval) : list event :=
  let ctx := JS.get err "ctx" in
  if JS.truthy ctx then
    match JS.get ctx "_metricFinish" with
    | JFunction _ => [EvMetricFinish (JS.get ctx "id")]
    | _ => []
    end
  else [].

(** The [.catch] at the end of [callAction].  Reading [err.name] for the
    log line throws when [err] is [null] or [undefined], [res.writeHead]
    throws on a status or a header value it does not accept, and a failing
    [JSON.stringify] throws too: from there on the handler does nothing, and
    nothing catches what it threw. *)
Definition errorHandler (err : jsval) : list event :=
  if JS.is_nullish err then []
  else
    let errObj := JS.pick err error_fields in
    match ServerResponse.writeHead (error_code err) (error_headers err) with
    | Throw _ => []
    | Ok written =>
        written ::
        match JSON_stringify env errObj (Some 2%nat) with
        | Ok text => EvEnd text :: error_metrics err
        | Throw _ => []
        end
    end.

(** [callAction(route, actionName, req, res, query)] *)
Definition pipeline (r : route) (actionName : string) (req : request)
    (query : jsval) : Chain unit :=
  let actionName := aliasStage r actionName req in
  whitelistStage r actionName ;;;
  req <- parseStage r req ;;
  let params := mergeParams query (req_body req) in
  ep <- resolveStage actionName params ;;
  ctx <- contextStage params ;;
  ctx <- authStage r req query ctx ;;
  invokeStage ctx ep params.

Definition callAction (r : route) (actionName : string) (req : request)
    (query : jsval) : list event :=
  Promise.catch (pipeline r actionName req query) errorHandler.

(** *** The HTTP handler *)

(** [send404(req, res)] *)
Definition send404 : list event :=
  [EvWriteHead 404 []; EvEnd (JStr "Not found")].

(** Split URL & query params *)
Definition split_url (raw : string) : string * jsval :=
  match JSString.indexOf raw "?" 1 with
  | None => (raw, JUndefined)
  | Some questionIdx =>
      (JSString.substring_to questionIdx raw,
       queryString_parse env (JSString.slice_from (questionIdx + 1) raw))
  end.

(** Trim trailing slash *)
Definition trim_slash (url : string) : string :=
  if JSString.endsWith url "/" then JSString.drop_last url else url.

(** Resolve action name *)
Definition resolveActionName (r : route) (url : string) : string :=
  let actionName := JSString.slice_from (String.length (path r)) url in
  let actionName :=
    if JSString.startsWith actionName "/"
    then JSString.slice_from 1 actionName else actionName in
  JSString.replace_all "/" "." (JSString.replace_first "~" "$" actionName).

(** The [for] loop over [this.routes]: the first route whose path starts
    the URL takes the request. *)
Fixpoint dispatch (routes : list route) (url : string) : option route :=
  match routes with
  | [] => None
  | r :: rest =>
      if JSString.startsWith url (path r) then Some r else dispatch rest url
  end.

(** [httpHandler(req, res)].  Nothing in the [try] block throws in this
    model, so its [catch] (status 500) is not represented. *)
Definition httpHandler (svc : service) (req : request) : list event :=
  let '(url, query) := split_url (req_url req) in
  let url := trim_slash url in
  match dispatch (default [] (svc_routes svc)) url with
  | Some r => callAction r (resolveActionName r url) req query
  | None =>
      match svc_serve svc with
      | Some serve =>
          EvServeStatic :: (if serve req then [] else send404)
      | None => send404
      end
  end.

End Gateway.

(** ** A sample deployment

    Stand-ins for the collaborators, to run the model on concrete requests:
    a matcher that understands a trailing [*], a JSON parser that accepts one
    document, a broker with two actions. *)

Module Sample.

(** like nanomatch, it refuses a name that is not a string *)
Definition isMatch (action mask : jsval) (_ : nm_options) : result bool :=
  match action, mask with
  | JStr a, JStr m =>
      Ok (if JSString.endsWith m "*"
          then JSString.startsWith a (JSString.drop_last m)
          else String.eqb a m)
  | JStr _, _ => Throw (JS.TypeError "expected pattern to be a string")
  | _, _ => Throw (JS.TypeError "expected a string")
  end.

(** the source is read as a literal that must start the string *)
Definition regexp_test (source flags : string) (v : jsval) : bool :=
  match v with
  | JStr s => JSString.startsWith s source
  | _ => false
  end.

Definition bad_json : jsval :=
  JObject (CError "SyntaxError")
    (list_to_map [("message", JStr "Unexpected token");
                  ("body", JStr "{oops")]).

(** accepts every body but the text [{oops] *)
Definition json_parser : parser := λ req,
  match req_body req with
  | JStr "{oops" => (req, bad_json)
  | _ =>
      ({| req_method := req_method req; req_url := req_url req;
          req_headers := req_headers req;
          req_body := JObject CPlain {[ "name" := JStr "a" ]} |},
       JUndefined)
  end.

(** never fails and leaves the request as it is *)
Definition urlencoded_parser : parser := λ req, (req, JUndefined).

(** like body-parser, the [json] factory refuses a [verify] option that is
    not a function *)
Definition json_factory (options : jsval) : result parser :=
  match JS.get options "verify" with
  | JUndefined | JNull | JFunction _ => Ok json_parser
  | _ => Throw (JS.TypeError "option verify must be function")
  end.

Definition factories (key : string) : option (jsval → result parser) :=
  match key with
  | "json" => Some json_factory
  | "urlencoded" => Some (λ _, Ok urlencoded_parser)
  | _ => None
  end.

Definition users_create : endpoint :=
  {| ep_name := "users.create"; ep_params := JUndefined;
     ep_responseType := JUndefined |}.

Definition posts_list : endpoint :=
  {| ep_name := "posts.list"; ep_params := JUndefined;
     ep_responseType := JUndefined |}.

Definition getAction (name : jsval) : option endpoint :=
  match name with
  | JStr "users.create" => Some users_create
  | JStr "posts.list" => Some posts_list
  | _ => None
  end.

Definition error (cls message : string) (code : Z) (data : jsval) : jsval :=
  JObject (CError cls)
    (list_to_map [("message", JStr message); ("code", JNum code);
                  ("data", data)]).

(** a stand-in for [ServiceNotFoundError] with the code it has in moleculer
    0.7, the releases whose [Errors] export the [CustomError] that
    [index.js] requires: 501; what the class keeps of its second argument
    is left out *)
Definition service_not_found (message : string) (action : jsval) : jsval :=
  JObject (CError "ServiceNotFoundError")
    (list_to_map [("message", JStr message); ("code", JNum 501)]).

(** like serve-static, it wants a folder name *)
Definition serve_static (folder options : jsval)
  : result (request → bool) :=
  match folder with
  | JStr (String _ _) => Ok (λ req, String.eqb (req_url req) "/index.html")
  | _ => Throw (JS.TypeError "root path required")
  end.

(** [Buffer.from] on an envelope whose [data] is not an array throws *)
Definition buffer_from (v : jsval) : result jsval :=
  match JS.get v "data" with
  | JArray _ => Ok (JBuffer [])
  | _ => Throw (JS.TypeError "invalid envelope")
  end.

Definition env : Env :=
  {| https_createServer := λ _, Ok tt;
     serveStatic := serve_static;
     nanomatch_isMatch := isMatch;
     RegExp_test := regexp_test;
     queryString_parse := λ s, JObject CNullProto {[ "q" := JStr s ]};
     bodyParser := factories;
     (* the text is represented by the value that is serialized *)
     JSON_stringify := λ v _, Ok v;
     Buffer_from := buffer_from;
     broker_getAction := getAction;
     broker_validator := None;
     broker_createNewContext := λ _ _,
       {| ctx_id := JStr "req-1"; ctx_requestID := JUndefined;
          ctx_meta_user := JUndefined |};
     call_auth := λ _ _, Ok JUndefined;
     call_action := λ _ _ params, Ok (JObject CPlain (params_own params));
     new_ServiceNotFoundError := service_not_found;
     new_CustomError := λ message code,
       error "CustomError" message code JUndefined;
     new_InvalidRequestBodyError := λ body message,
       error "InvalidRequestBodyError" (JS.toString message) 400 body;
     new_InvalidResponseType := λ dataType,
       error "InvalidResponseType" dataType 500 JUndefined |}.

Definition no_settings : settings :=
  {| set_https := JUndefined; set_path := None; set_routes := None;
     set_assets := JUndefined |}.

Definition make_route (p : string) (wl al : jsval) (ps : option (list parser))
  : route :=
  {| opts := {| opt_path := Some p; opt_whitelist := wl;
                opt_authorization := JUndefined; opt_aliases := al;
                opt_bodyParsers := None |};
     authorization := JUndefined;
     whitelist := wl;
     hasWhitelist := JS.isArray wl;
     aliases := al;
     hasAliases := JS.truthy al && (0 <? size (JS.own_enumerable al))%nat;
     parsers := ps;
     path := p |}.

Definition admin : route :=
  make_route "/admin" JUndefined
    (JObject CPlain {[ "POST users" := JStr "users.create" ]})
    (Some [json_parser; urlencoded_parser]).

Definition public : route :=
  make_route "/api" (JArray [JStr "posts.*"; JRegExp "math." ""]) JUndefined
    (Some [json_parser]).

Definition request_of (m u : string) (b : jsval) : request :=
  {| req_method := m; req_url := u; req_headers := ∅; req_body := b |}.

Definition gateway : service :=
  {| svc_isHTTPS := false; svc_routes := Some [admin; public];
     svc_serve := None |}.

End Sample.

(** ** A deployment with a validator and an authorized route *)

Module Guarded.

Definition invalid : jsval :=
  Sample.error "ValidationError" "name is required" 422 JUndefined.

(** accepts the parameters that have a string [name] *)
Definition validate (params : parameters) (schema : jsval)
  : result unit :=
  match params_own params !! "name" with
  | Some (JStr _) => Ok tt
  | _ => Throw invalid
  end.

Definition users_create : endpoint :=
  {| ep_name := "users.create";
     ep_params := JObject CPlain {[ "name" := JStr "string" ]};
     ep_responseType := JUndefined |}.

Definition getAction (name : jsval) : option endpoint :=
  match name with
  | JStr "users.create" => Some users_create
  | JStr "posts.list" => Some Sample.posts_list
  | _ => None
  end.

(** knows one key *)
Definition resolveUser (ctx : context) (params : gmap string jsval)
  : result jsval :=
  match params !! "apiKey" with
  | Some (JStr "secret") => Ok (JObject CPlain {[ "name" := JStr "admin" ]})
  | _ => Ok JNull
  end.

Definition env : Env :=
  {| https_createServer := https_createServer Sample.env;
     serveStatic := Sample.serve_static;
     nanomatch_isMatch := Sample.isMatch;
     RegExp_test := Sample.regexp_test;
     queryString_parse := queryString_parse Sample.env;
     bodyParser := Sample.factories;
     JSON_stringify := JSON_stringify Sample.env;
     Buffer_from := Sample.buffer_from;
     broker_getAction := getAction;
     broker_validator := Some validate;
     broker_createNewContext := broker_createNewContext Sample.env;
     call_auth := resolveUser;
     call_action := call_action Sample.env;
     new_ServiceNotFoundError := new_ServiceNotFoundError Sample.env;
     new_CustomError := new_CustomError Sample.env;
     new_InvalidRequestBodyError := new_InvalidRequestBodyError Sample.env;
     new_InvalidResponseType := new_InvalidResponseType Sample.env |}.

Definition secure : route :=
  {| opts := {| opt_path := Some "/secure"; opt_whitelist := JUndefined;
                opt_authorization := JBool true; opt_aliases := JUndefined;
                opt_bodyParsers := None |};
     authorization := JBool true;
     whitelist := JUndefined;
     hasWhitelist := false;
     aliases := JUndefined;
     hasAliases := false;
     parsers := None;
     path := "/secure" |}.

End Guarded.

(** ** Notions used in the statements *)

(** [p] is a literal prefix of [s]. *)
Definition is_prefix (p s : string) : Prop := ∃ rest, s = p +:+ rest.

(** A mask matches an action name: a string mask through nanomatch, called
    with [unixify] off and the name as it is; a regular expression through
    its own [test].  No other kind of mask matches. *)
Definition mask_matches (env : Env) (action mask : jsval) : Prop :=
  (JS.isString mask = true
   ∧ nanomatch_isMatch env action mask {| unixify := false |} = Ok true)
  ∨ (∃ source flags,
       mask = JRegExp source flags
       ∧ RegExp_test env source flags action = true).

(** The glob matcher answers, that is, returns without throwing, for the
    name on every string mask of the list. *)
Definition glob_answers (env : Env) (action : jsval) (masks : list jsval)
  : Prop :=
  ∀ mask, mask ∈ masks → JS.isString mask = true →
    ∃ b, nanomatch_isMatch env action mask {| unixify := false |} = Ok b.

(** Flags under which a regular expression keeps no position between two
    calls of [test]: neither [g] nor [y]. *)
Definition stateless (flags : string) : Prop :=
  ("g"%char ∉ JSString.chars flags) ∧ ("y"%char ∉ JSString.chars flags).

(** No regular expression of the list keeps a position. *)
Definition stateless_masks (masks : list jsval) : Prop :=
  ∀ source flags, JRegExp source flags ∈ masks → stateless flags.

(** The alias stored under exactly the key [k], when there is one and it is
    truthy. *)
Definition alias_for (own : gmap string jsval) (k : string) : option jsval :=
  match own !! k with
  | Some v => if JS.truthy v then Some v else None
  | None => None
  end.

(** The property names an ordinary object or an error inherits. *)
Definition inherited_names : list string :=
  [ "__proto__"; "name"; "message"; "constructor"; "toString";
    "toLocaleString"; "valueOf"; "hasOwnProperty"; "isPrototypeOf";
    "propertyIsEnumerable"; "__defineGetter__"; "__defineSetter__";
    "__lookupGetter__"; "__lookupSetter__" ].

(** The request as the parsers [ps], called in order, leave it. *)
Definition thread (ps : list parser) (req : request) : request :=
  fold_left (λ rq (p : parser), (p rq).1) ps req.

(** What the parser at position [i] of [ps] passes to its callback when the
    parsers before it have run. *)
Definition outcome_at (ps : list parser) (req : request) (i : nat) : jsval :=
  match ps !! i with
  | Some p => (p (thread (take i ps) req)).2
  | None => JUndefined
  end.

(** Header names are compared without regard to case. *)
Definition lower (a : ascii) : ascii :=
  let n := nat_of_ascii a in
  if (65 <=? n)%nat && (n <=? 90)%nat then ascii_of_nat (n + 32) else a.

Fixpoint lowercase (s : string) : string :=
  match s with
  | EmptyString => EmptyString
  | String a s' => String (lower a) (lowercase s')
  end.

Fixpoint header (name : string) (headers : list (string * jsval))
  : option jsval :=
  match headers with
  | [] => None
  | (k, v) :: rest =>
      if String.eqb (lowercase k) (lowercase name) then Some v
      else header name rest
  end.

(** [JSON.stringify] leaves out the properties whose value is [undefined] or
    a function. *)
Definition json_omits (v : jsval) : bool :=
  match v with JUndefined | JFunction _ => true | _ => false end.

(** The serialization of the object [o] has a field [k]. *)
Definition json_field (o : jsval) (k : string) : Prop :=
  match o with
  | JObject _ props => ∃ v, props !! k = Some v ∧ json_omits v = false
  | _ => False
  end.

(** The class [ServiceNotFoundError] comes from the moleculer package.  Its
    errors carry the code [n] when every error it builds is an object whose
    [code] is [n], whose [message] is the message given to the constructor,
    and which has no context attached. *)
Definition not_found_code (env : Env) (n : Z) : Prop :=
  ∀ message data, ∃ c props,
    new_ServiceNotFoundError env message data = JObject c props
    ∧ JS.get (JObject c props) "code" = JNum n
    ∧ JS.get (JObject c props) "message" = JStr message
    ∧ JS.get (JObject c props) "ctx" = JUndefined.

(** The headers of the response after the calls [t], by lower-case name:
    [setHeader] and the headers given to [writeHead] fill the same table,
    and a later value replaces an earlier one of the same name. *)
Definition put_header (table : gmap string jsval) (kv : string * jsval)
  : gmap string jsval :=
  <[lowercase kv.1 := kv.2]> table.

Definition record_headers (table : gmap string jsval) (ev : event)
  : gmap string jsval :=
  match ev with
  | EvSetHeader name value => put_header table (name, value)
  | EvWriteHead _ headers => fold_left put_header headers table
  | _ => table
  end.

Definition response_headers (t : list event) : gmap string jsval :=
  fold_left record_headers t ∅.

(** The status of the response after the calls [t]: the last one that was
    assigned to [statusCode] or given to [writeHead]. *)
Definition response_status (t : list event) : option Z :=
  last (omap (λ ev, match ev with
                    | EvStatusCode code => Some code
                    | EvWriteHead code _ => Some (JS.ToInt32 code)
                    | _ => None
                    end) t).

(** An identifier that can be sent as a header: a string of characters a
    header may hold, or [null], the id of a context that was given none,
    which is sent as the text null. *)
Definition sendable (v : jsval) : Prop :=
  v = JNull
  ∨ ∃ s, v = JStr s
         ∧ forallb ServerResponse.header_char (JSString.chars s) = true.

(** What the error handler does once [writeHead] has returned. *)
Definition error_body (env : Env) (err : jsval) : list event :=
  match JSON_stringify env (JS.pick err error_fields) (Some 2%nat) with
  | Ok text => EvEnd text :: error_metrics err
  | Throw _ => []
  end.

(** A value as the parsers of query strings and of request bodies make it,
    seen from [Object.assign]: a primitive, a buffer, an array or an object
    without a class of its own.  As a prototype, a value is plain when it
    is a primitive, an array or such an object. *)
Definition plain (v : jsval) : bool :=
  match v with
  | JFunction _ | JRegExp _ _ | JBuffer _ => false
  | JObject (CError _) _ | JObject CStream _ | JObject (CString _) _ => false
  | _ => true
  end.

Definition parsed (v : jsval) : bool :=
  (plain v || JS.isBuffer v)
  && match JS.own_enumerable v !! "__proto__" with
     | Some p => plain p
     | None => true
     end.

(** A query as [querystring.parse] makes it, or none at all: if it has an
    entry [__proto__], its value is a string or an array. *)
Definition parsed_query (query : jsval) : Prop :=
  plain query = true
  ∧ ∀ v, JS.own_enumerable query !! "__proto__" = Some v →
         (∃ s, v = JStr s) ∨ (∃ l, v = JArray l).

(** The entry of a value under the key [__proto__], when [Object.assign]
    would install it as a prototype. *)
Definition proto_entry (v : jsval) : option jsval :=
  match JS.own_enumerable v !! "__proto__" with
  | Some p => if JS.is_prototype p then Some p else None
  | None => None
  end.

(** The parameters of the action calls among the events. *)
Definition invocations (t : list event) : list parameters :=
  omap (λ ev, match ev with
              | EvCallAction _ _ params => Some params
              | _ => None
              end) t.

(** A chain that calls no action. *)
Definition quiet {A} (c : Chain A) : Prop := invocations c.1 = [].

(** An event of a body parser. *)
Definition is_parser_event (ev : event) : Prop :=
  match ev with EvParser _ => True | _ => False end.

(** What is left of a path once one optional leading slash is removed. *)
Definition strip_slash (rest : string) : string :=
  match rest with
  | String a rest' => if Ascii.eqb a "/" then rest' else rest
  | EmptyString => EmptyString
  end.

(** The character an action name has where the path has [c], given the
    characters of the path before it: a slash becomes a dot, the first tilde
    becomes a dollar sign, every other character stays. *)
Definition substituted (c : ascii) (before : list ascii) : ascii :=
  if Ascii.eqb c "/" then "."%char
  else if Ascii.eqb c "~" && bool_decide ("~"%char ∉ before) then "$"%char
  else c.




(** An event that ends the response: [res.end], or a stream piped into it. *)
Definition is_ending (ev : event) : bool :=
  match ev with EvEnd _ | EvPipe _ => true | _ => false end.

Definition endings (t : list event) : nat :=
  length (filter (λ ev, is_ending ev = true) t).

(** A chain that has not ended the response. *)
Definition silent {A} (c : Chain A) : Prop := endings c.1 = 0%nat.

(** A chain that has ended the response at most once, and not at all when it
    is rejected. *)
Definition single {A} (c : Chain A) : Prop :=
  (endings c.1 ≤ 1)%nat ∧ ∀ err, c.2 = Throw err → endings c.1 = 0%nat.

(** The context of a request: the one the broker makes, with its id as
    request id. *)
Definition made_context (env : Env) (params : parameters) : context :=
  let ctx := broker_createNewContext env "api-gw.rest" params in
  {| ctx_id := ctx_id ctx;
     ctx_requestID := ctx_id ctx;
     ctx_meta_user := ctx_meta_user ctx |}.

(** The API key of a request: the [apikey] query parameter when there is a
    query and the parameter is truthy, the [apikey] header otherwise. *)
Definition api_key (query : jsval) (req : request) : jsval :=
  if JS.truthy query && JS.truthy (JS.get query "apikey")
  then JS.get query "apikey"
  else default JUndefined (req_headers req !! "apikey").

(** ** Strings *)

Section StringFacts.

Import JSString.

Lemma startsWith_spec s p : startsWith s p = true ↔ is_prefix p s.
Proof.
  revert s. induction p as [|a p IH]; intros s; simpl.
  - split; [intros _; by exists s | done].
  - destruct s as [|b s].
    + split; [done | intros [rest Hr]; discriminate Hr].
    + rewrite andb_true_iff, IH. split.
      * intros [Hab [rest ->]]. apply Ascii.eqb_eq in Hab as ->.
        by exists rest.
      * intros [rest Hr]. simpl in Hr. injection Hr as -> ->.
        split; [apply Ascii.eqb_refl | by exists rest].
Qed.

Lemma startsWith_false s p : startsWith s p = false ↔ ¬ is_prefix p s.
Proof.
  rewrite <- startsWith_spec. by destruct (startsWith s p).
Qed.

Lemma append_nil s : "" +:+ s = s.
Proof. reflexivity. Qed.

Lemma append_cons a s t : String a s +:+ t = String a (s +:+ t).
Proof. reflexivity. Qed.

Lemma startsWith_char a s c :
  startsWith (String a s) (String c "") = Ascii.eqb c a.
Proof.
  change (startsWith (String a s) (String c ""))
    with (Ascii.eqb c a && true).
  apply andb_true_r.
Qed.

Lemma slice_from_app p rest :
  slice_from (String.length p) (p +:+ rest) = rest.
Proof.
  induction p as [|a p IH]; [by destruct rest|].
  rewrite append_cons. simpl. exact IH.
Qed.

Lemma chars_length s : length (chars s) = String.length s.
Proof. induction s; simpl; congruence. Qed.

Lemma chars_app s t : chars (s +:+ t) = chars s ++ chars t.
Proof.
  induction s as [|a s IH]; [done|].
  rewrite append_cons. simpl. by rewrite IH.
Qed.

Lemma substring_to_app s t : substring_to (String.length s) (s +:+ t) = s.
Proof.
  induction s as [|a s IH]; [by destruct t|].
  rewrite append_cons. simpl. by rewrite IH.
Qed.

Lemma length_app s t :
  String.length (s +:+ t) = (String.length s + String.length t)%nat.
Proof.
  induction s as [|a s IH]; [done|].
  rewrite append_cons. simpl. by rewrite IH.
Qed.

(** One trailing slash is removed, and only one. *)
Lemma drop_last_slash s : drop_last (s +:+ "/") = s.
Proof.
  unfold drop_last. rewrite length_app. simpl.
  replace (String.length s + 1 - 1)%nat with (String.length s) by lia.
  apply substring_to_app.
Qed.

Lemma endsWith_slash s : endsWith (s +:+ "/") "/" = true.
Proof.
  unfold endsWith. rewrite length_app.
  change (String.length "/") with 1%nat.
  replace (String.length s + 1 - 1)%nat with (String.length s) by lia.
  rewrite slice_from_app.
  apply andb_true_iff. split; [apply Nat.leb_le; lia | done].
Qed.

Lemma chars_replace_all c d s :
  chars (replace_all c d s)
  = (λ a, if Ascii.eqb a c then d else a) <$> chars s.
Proof. induction s as [|a s IH]; [done|]. simpl. by rewrite IH. Qed.

Lemma chars_replace_first c d s i a :
  chars s !! i = Some a →
  chars (replace_first c d s) !! i
  = Some (if Ascii.eqb a c && bool_decide (c ∉ take i (chars s))
          then d else a).
Proof.
  revert i. induction s as [|b s IH]; intros i; simpl; [done|].
  destruct i as [|i]; simpl.
  - intros [= ->]. by destruct (Ascii.eqb a c).
  - intros Hi. destruct (Ascii.eqb b c) eqn:E; simpl.
    + apply Ascii.eqb_eq in E as ->.
      rewrite bool_decide_eq_false_2, andb_false_r; [done|].
      intros H. apply H. apply list_elem_of_here.
    + rewrite (IH _ Hi). f_equal.
      rewrite (bool_decide_ext (c ∉ b :: take i (chars s))
                 (c ∉ take i (chars s))); [done|].
      rewrite not_elem_of_cons. apply Ascii.eqb_neq in E.
      split; [by intros [_ ?] | intros ?; split; [congruence | done]].
Qed.

Lemma length_replace_first c d s :
  length (chars (replace_first c d s)) = length (chars s).
Proof.
  induction s as [|a s IH]; simpl; [done|].
  destruct (Ascii.eqb a c); simpl; congruence.
Qed.

End StringFacts.

(** ** Dispatch *)

Section DispatchFacts.

Context (env : Env).

Lemma dispatch_Some routes url r :
  dispatch routes url = Some r ↔
  ∃ i, routes !! i = Some r
       ∧ JSString.startsWith url (path r) = true
       ∧ ∀ j r', (j < i)%nat → routes !! j = Some r' →
                 JSString.startsWith url (path r') = false.
Proof.
  induction routes as [|r0 routes IH]; simpl.
  - split; [done | by intros (i & Hi & _)].
  - destruct (JSString.startsWith url (path r0)) eqn:E.
    + split.
      * intros [= <-]. exists 0%nat. repeat split; [done|]. intros; lia.
      * intros ([|i] & Hi & Hp & Hfirst).
        -- by injection Hi as ->.
        -- specialize (Hfirst 0%nat r0 ltac:(lia) eq_refl). congruence.
    + rewrite IH. split.
      * intros (i & Hi & Hp & Hfirst). exists (S i). repeat split; [done..|].
        intros [|j] r' Hj Hr'; simpl in Hr'.
        -- by injection Hr' as <-.
        -- apply (Hfirst j); [lia | done].
      * intros ([|i] & Hi & Hp & Hfirst); simpl in Hi.
        -- injection Hi as ->. congruence.
        -- exists i. repeat split; [done..|].
           intros j r' Hj Hr'. apply (Hfirst (S j)); [lia | done].
Qed.

Lemma dispatch_None routes url :
  dispatch routes url = None ↔
  ∀ r, r ∈ routes → JSString.startsWith url (path r) = false.
Proof.
  induction routes as [|r0 routes IH]; simpl.
  - split; [intros _ r Hr; by apply elem_of_nil in Hr | done].
  - destruct (JSString.startsWith url (path r0)) eqn:E.
    + split; [done|]. intros H. specialize (H r0 (list_elem_of_here _ _)).
      congruence.
    + rewrite IH. split.
      * intros H r Hr. apply elem_of_cons in Hr as [-> | Hr]; auto.
      * intros H r Hr. apply H. by apply list_elem_of_further.
Qed.

Lemma trim_slash_trailing s : trim_slash (s +:+ "/") = s.
Proof. unfold trim_slash. by rewrite endsWith_slash, drop_last_slash. Qed.

Lemma trim_slash_other s :
  JSString.endsWith s "/" = false → trim_slash s = s.
Proof. unfold trim_slash. by intros ->. Qed.

End DispatchFacts.

(** C2: the candidate action name is the rest of the URL after the route
    path, without one optional leading slash, where every slash has become a
    dot and the first tilde, and only the first, a dollar sign; the rest
    [users/~node/health] gives [users.$node.health]. *)
Theorem resolveActionName_remainder (r : route) (rest : string) :
  let remainder := strip_slash rest in
  let name := resolveActionName r (path r +:+ rest) in
  length (JSString.chars name) = length (JSString.chars remainder)
  ∧ (∀ i c, JSString.chars remainder !! i = Some c →
       JSString.chars name !! i
       = Some (substituted c (take i (JSString.chars remainder))))
  ∧ resolveActionName Sample.public "/api/users/~node/health"
    = "users.$node.health".
Proof.
  intros remainder name.
  assert (Hname : name = JSString.replace_all "/" "."
                           (JSString.replace_first "~" "$" remainder)).
  { unfold name, resolveActionName. rewrite slice_from_app.
    f_equal. f_equal. unfold remainder, strip_slash.
    destruct rest as [|a rest]; [done|].
    rewrite startsWith_char, Ascii.eqb_sym.
    by destruct (Ascii.eqb a "/"). }
  rewrite Hname. split; [|split].
  - rewrite chars_replace_all, length_fmap. apply length_replace_first.
  - intros i c Hc. rewrite chars_replace_all, list_lookup_fmap.
    rewrite (chars_replace_first _ _ _ _ _ Hc). simpl. f_equal.
    unfold substituted.
    destruct (Ascii.eqb_spec c "~") as [-> | Hne]; simpl.
    + by destruct (bool_decide _).
    + done.
  - reflexivity.
Qed.

Lemma resolveActionName_remainder_witness :
  JSString.chars (resolveActionName Sample.public "/api/users/~node/health")
    !! 6%nat = Some "$"%char.
Proof.
  exact (proj1 (proj2 (resolveActionName_remainder Sample.public
                         "/users/~node/health")) 6%nat "~"%char eq_refl).
Defined.

(** C1: on the URL without its query string and without one trailing slash,
    the handler hands the request to the first route, in declared order,
    whose path is a literal prefix of the URL; when no route path is a prefix
    and no static server is configured, it answers 404. *)
Theorem httpHandler_first_match (env : Env) (svc : service) (req : request) :
  let url := trim_slash (split_url env (req_url req)).1 in
  let query := (split_url env (req_url req)).2 in
  (∀ routes i r,
      svc_routes svc = Some routes →
      routes !! i = Some r →
      is_prefix (path r) url →
      (∀ j r', (j < i)%nat → routes !! j = Some r' → ¬ is_prefix (path r') url) →
      httpHandler env svc req
      = callAction env r (resolveActionName r url) req query)
  ∧ ((∀ routes r, svc_routes svc = Some routes → r ∈ routes →
                  ¬ is_prefix (path r) url) →
     svc_serve svc = None →
     httpHandler env svc req = [EvWriteHead 404 []; EvEnd (JStr "Not found")]).
Proof.
  intros url query. unfold httpHandler.
  destruct (split_url env (req_url req)) as [u q] eqn:Hs.
  simpl in url, query. fold url. split.
  - intros routes i r Hroutes Hi Hp Hfirst. rewrite Hroutes. simpl.
    assert (dispatch routes url = Some r) as ->; [|done].
    apply dispatch_Some. exists i. repeat split; [done| |].
    + by apply startsWith_spec.
    + intros j r' Hj Hr'. apply startsWith_false. by apply (Hfirst j).
  - intros Hnone Hserve. rewrite Hserve.
    assert (dispatch (default [] (svc_routes svc)) url = None) as ->; [|done].
    apply dispatch_None. intros r Hr. apply startsWith_false.
    destruct (svc_routes svc) as [routes|] eqn:Hroutes; simpl in Hr.
    + by apply (Hnone routes).
    + by apply elem_of_nil in Hr.
Qed.

Lemma httpHandler_first_match_witness :
  httpHandler Sample.env Sample.gateway
    (Sample.request_of "GET" "/api/posts/list/?page=2" JUndefined)
  = callAction Sample.env Sample.public "posts.list"
      (Sample.request_of "GET" "/api/posts/list/?page=2" JUndefined)
      (JObject CNullProto {[ "q" := JStr "page=2" ]})
  ∧ httpHandler Sample.env Sample.gateway
      (Sample.request_of "GET" "/health" JUndefined)
    = [EvWriteHead 404 []; EvEnd (JStr "Not found")].
Proof.
  pose proof (httpHandler_first_match Sample.env Sample.gateway) as H.
  split.
  - apply (proj1 (H (Sample.request_of "GET" "/api/posts/list/?page=2"
                       JUndefined))
             [Sample.admin; Sample.public] 1%nat Sample.public);
      [reflexivity | reflexivity | by exists "/posts/list" |].
    intros [|[|j]] r' Hj Hr'; [|lia..].
    injection Hr' as <-. apply startsWith_false. reflexivity.
  - apply (proj2 (H (Sample.request_of "GET" "/health" JUndefined)));
      [|reflexivity].
    intros routes r [= <-] Hr. apply startsWith_false.
    apply elem_of_cons in Hr as [-> | Hr]; [reflexivity|].
    apply elem_of_cons in Hr as [-> | Hr]; [reflexivity|].
    by apply elem_of_nil in Hr.
Defined.

(** ** Whitelist *)

Section WhitelistFacts.

Context (env : Env).

Lemma mask_test_truthy action mask v :
  mask_test env action mask = Ok v →
  JS.truthy v = true ↔ mask_matches env action mask.
Proof.
  unfold mask_test, mask_matches.
  destruct (JS.isString mask) eqn:Hs.
  - destruct (nanomatch_isMatch env action mask _) as [b|err] eqn:Hm; [|done].
    intros [= <-]. simpl. split.
    + intros ->. by left.
    + intros [[_ [= ->]] | (source & flags & -> & _)]; [done | discriminate Hs].
  - split.
    + destruct mask; simplify_eq/=; try done. intros Ht. right. eauto.
    + intros [[Hs' _] | (source & flags & -> & Ht)]; [congruence|].
      by simplify_eq/=.
Qed.

Lemma mask_test_answers action masks mask :
  glob_answers env action masks → mask ∈ masks →
  ∃ v, mask_test env action mask = Ok v.
Proof.
  intros Hans Hin. unfold mask_test.
  destruct (JS.isString mask) eqn:Hs.
  - destruct (Hans mask Hin Hs) as [b ->]. eauto.
  - destruct mask; eauto.
Qed.

Lemma mask_matches_not_nullish action mask :
  mask_matches env action mask → JS.is_nullish mask = false.
Proof.
  intros [[H _] | (source & flags & -> & _)]; [|done]. by destruct mask.
Qed.

(** the other kinds of mask never match *)
Lemma mask_matches_other action mask :
  JS.isString mask = false → JS.isRegExp mask = false →
  ¬ mask_matches env action mask.
Proof.
  intros Hs Hr [[H _] | (source & flags & -> & _)];
    [congruence | discriminate Hr].
Qed.

Lemma glob_answers_cons action mask masks :
  glob_answers env action (mask :: masks) → glob_answers env action masks.
Proof. intros H m Hin. apply H. by apply list_elem_of_further. Qed.

Lemma find_mask action masks :
  glob_answers env action masks →
  ∃ found,
    JS.Array_find (mask_test env action) masks = Ok found
    ∧ (JS.is_nullish found = false
       ↔ ∃ mask, mask ∈ masks ∧ mask_matches env action mask).
Proof.
  induction masks as [|m masks IH]; intros Hans; simpl.
  - exists JUndefined. split; [done|].
    split; [done | intros (mask & H & _); by apply elem_of_nil in H].
  - destruct (mask_test_answers action (m :: masks) m Hans) as [v Hv];
      [apply list_elem_of_here|].
    rewrite Hv. pose proof (mask_test_truthy action m v Hv) as Hm.
    destruct (JS.truthy v) eqn:E.
    + exists m. split; [done|]. split.
      * intros _. exists m. split; [apply list_elem_of_here | by apply Hm].
      * intros _. apply (mask_matches_not_nullish action). by apply Hm.
    + destruct (IH (glob_answers_cons _ _ _ Hans)) as (found & Hf & Hiff).
      exists found. split; [done|]. rewrite Hiff. split.
      * intros (mask & H & Hmm). exists mask.
        split; [by apply list_elem_of_further | done].
      * intros (mask & H & Hmm). apply elem_of_cons in H as [-> | H].
        -- apply Hm in Hmm. congruence.
        -- by exists mask.
Qed.

Lemma checkWhitelist_answers r masks action :
  whitelist r = JArray masks →
  glob_answers env action masks →
  ∃ b, checkWhitelist env r action = Ok b
       ∧ (b = true ↔ ∃ mask, mask ∈ masks ∧ mask_matches env action mask).
Proof.
  intros Hwl Hans. unfold checkWhitelist. rewrite Hwl.
  destruct (find_mask action masks Hans) as (found & -> & Hiff).
  eexists. split; [done|]. by rewrite negb_true_iff.
Qed.

Lemma createRoute_fields st o r :
  createRoute env st o = Ok r →
  whitelist r = opt_whitelist o
  ∧ hasWhitelist r = JS.isArray (opt_whitelist o)
  ∧ aliases r = opt_aliases o
  ∧ authorization r = opt_authorization o
  ∧ path r = str_or (Some (str_or (set_path st) "" +:+ str_or (opt_path o) ""))
               "/".
Proof.
  unfold createRoute. destruct (opt_bodyParsers o) as [bps|].
  - destruct (createParsers env bps); [|done]. by intros [= <-].
  - by intros [= <-].
Qed.

End WhitelistFacts.

(** C3: for a name that is a string, on which the glob matcher answers, and
    for masks among which no regular expression has the [g] or [y] flag,
    [checkWhitelist] holds exactly when some mask of the whitelist matches
    the action name (a string mask through the glob matcher, called with the
    name as it is and without unifying path separators; a regular expression
    through its own test; any other mask never); a route made from options
    without a whitelist array lets every action pass the check; and the
    order of the masks does not change the result. *)
Theorem checkWhitelist_some_mask (env : Env) (r : route) (masks : list jsval)
    (name : string) :
  let action := JStr name in
  whitelist r = JArray masks →
  glob_answers env action masks →
  stateless_masks masks →
  (checkWhitelist env r action = Ok true
   ↔ ∃ mask, mask ∈ masks ∧ mask_matches env action mask)
  ∧ (checkWhitelist env r action = Ok false
     ↔ ∀ mask, mask ∈ masks → ¬ mask_matches env action mask)
  ∧ (∀ mask, JS.isString mask = false → JS.isRegExp mask = false →
             ¬ mask_matches env action mask)
  ∧ (∀ st o r0, createRoute env st o = Ok r0 →
                JS.isArray (opt_whitelist o) = false →
                whitelistStage env r0 action = Promise.resolve tt)
  ∧ (∀ r' masks', whitelist r' = JArray masks' → masks ≡ₚ masks' →
                  checkWhitelist env r' action = checkWhitelist env r action).
Proof.
  intros action Hwl Hans _.
  destruct (checkWhitelist_answers env r masks action Hwl Hans)
    as (b & Hb & Hiff).
  rewrite Hb. repeat split.
  - intros [= ->]. by apply Hiff.
  - intros H. f_equal. by apply Hiff.
  - intros [= ->] mask Hin Hm.
    assert (false = true) by (apply Hiff; eauto). done.
  - intros H. f_equal. destruct b; [|done].
    destruct (proj1 Hiff eq_refl) as (mask & Hin & Hm). by destruct (H mask).
  - apply mask_matches_other.
  - intros st o r0 Hr0 Harr. unfold whitelistStage.
    apply createRoute_fields in Hr0 as (_ & -> & _). by rewrite Harr.
  - intros r' masks' Hwl' Hperm.
    assert (Hans' : glob_answers env action masks').
    { intros mask Hin. apply Hans. by rewrite Hperm. }
    destruct (checkWhitelist_answers env r' masks' action Hwl' Hans')
      as (b' & -> & Hiff').
    f_equal. destruct b, b'; try done.
    + destruct (proj1 Hiff eq_refl) as (mask & Hin & Hm).
      apply Hiff'. exists mask. by rewrite <- Hperm.
    + destruct (proj1 Hiff' eq_refl) as (mask & Hin & Hm).
      symmetry. apply Hiff. exists mask. by rewrite Hperm.
Qed.

Lemma checkWhitelist_some_mask_witness :
  checkWhitelist Sample.env Sample.public (JStr "math.add") = Ok true
  ∧ checkWhitelist Sample.env Sample.public (JStr "comments.list") = Ok false.
Proof.
  assert (Hans : ∀ name, glob_answers Sample.env (JStr name)
                           [JStr "posts.*"; JRegExp "math." ""]).
  { intros name mask Hin Hs.
    apply elem_of_cons in Hin as [-> | Hin]; [by eexists|].
    apply elem_of_cons in Hin as [-> | Hin]; [discriminate Hs|].
    by apply elem_of_nil in Hin. }
  assert (Hflags : stateless_masks [JStr "posts.*"; JRegExp "math." ""]).
  { intros source flags Hin.
    apply elem_of_cons in Hin as [[=] | Hin].
    apply elem_of_cons in Hin as [[= -> ->] | Hin];
      [|by apply elem_of_nil in Hin].
    split; apply not_elem_of_nil. }
  split.
  - apply (checkWhitelist_some_mask Sample.env Sample.public
             [JStr "posts.*"; JRegExp "math." ""] "math.add" eq_refl
             (Hans _) Hflags).
    exists (JRegExp "math." ""). split.
    + apply list_elem_of_further, list_elem_of_here.
    + right. by eexists _, _.
  - apply (checkWhitelist_some_mask Sample.env Sample.public
             [JStr "posts.*"; JRegExp "math." ""] "comments.list" eq_refl
             (Hans _) Hflags).
    intros mask Hin. apply elem_of_cons in Hin as [-> | Hin].
    + intros [[_ H] | (source & flags & H & _)]; discriminate H.
    + apply elem_of_cons in Hin as [-> | Hin];
        [|by apply elem_of_nil in Hin].
      intros [[H _] | (source & flags & [= <- <-] & H)]; discriminate H.
Defined.

(** A name that is not a string, such as the member an alias table
    inherits under [constructor], does not fail the check: the glob matcher
    throws on it, and the chain is rejected with what it threw. *)
Example checkWhitelist_inherited_name :
  checkWhitelist Sample.env Sample.public (JFunction "Object")
  = Throw (JS.TypeError "expected a string").
Proof. reflexivity. Qed.

(** ** Aliases *)

Section AliasFacts.

Local Ltac listed H :=
  apply list_elem_of_fmap_2 with (f := fst) in H; simpl in H;
  repeat (apply elem_of_cons in H as [-> | H];
          [apply (bool_decide_unpack _); vm_compute; exact I|]);
  by apply elem_of_nil in H.

Lemma inherited_Some c k v :
  JS.inherited c k = Some v → k ∈ inherited_names.
Proof.
  unfold JS.inherited, inherited_names.
  destruct c; try done;
    (destruct (String.eqb_spec k "__proto__") as [-> | _];
     [intros _; apply list_elem_of_here|]);
    intros H.
  1,3,4: apply elem_of_list_to_map_2 in H; listed H.
  apply lookup_union_Some_raw in H as [H | [_ H]];
    apply elem_of_list_to_map_2 in H; listed H.
Qed.

Lemma not_inherited c k : k ∉ inherited_names → JS.inherited c k = None.
Proof.
  intros H. destruct (JS.inherited c k) eqn:E; [|done].
  by apply inherited_Some in E.
Qed.

(** no inherited name contains a space, so a key made of a method, a space
    and a name is never inherited *)
Lemma method_key_not_inherited c method actionName :
  JS.inherited c (method +:+ " " +:+ actionName) = None.
Proof.
  apply not_inherited. intros H.
  assert (Hsp : " "%char ∈ JSString.chars (method +:+ " " +:+ actionName)).
  { rewrite chars_app. apply elem_of_app. right.
    apply list_elem_of_here. }
  revert Hsp. generalize dependent (method +:+ " " +:+ actionName).
  intros k Hk. unfold inherited_names in Hk.
  repeat (apply elem_of_cons in Hk as [-> | Hk];
          [intros Hsp; apply (bool_decide_pack _) in Hsp;
           vm_compute in Hsp; exact Hsp|]).
  by apply elem_of_nil in Hk.
Qed.

Lemma resolveAlias_unfold r c own actionName method :
  aliases r = JObject c own →
  JS.inherited c actionName = None →
  resolveAlias r actionName method =
    match alias_for own (default "GET" method +:+ " " +:+ actionName) with
    | Some v => v
    | None =>
        match alias_for own actionName with
        | Some v => v
        | None => JStr actionName
        end
    end.
Proof.
  intros Hal Hinh. unfold resolveAlias, JS.or, JS.get, alias_for.
  rewrite Hal, Hinh, method_key_not_inherited. simpl.
  destruct (own !! _) as [v1|]; simpl.
  - destruct (JS.truthy v1) eqn:E1; [by rewrite E1|].
    destruct (own !! actionName) as [v2|]; simpl; [|done].
    by destruct (JS.truthy v2) eqn:E2; rewrite ?E2.
  - destruct (own !! actionName) as [v2|]; simpl; [|done].
    by destruct (JS.truthy v2) eqn:E2; rewrite ?E2.
Qed.

End AliasFacts.

(** An alias table made from an object literal inherits from
    [Object.prototype]: a path that spells the name of an inherited member is
    resolved to that member, not to an action name. *)
Example resolveAlias_inherited_key :
  resolveAlias Sample.admin "constructor" (Some "GET") = JFunction "Object".
Proof. reflexivity. Qed.

(** C4, as stated, fails: an alias that is present with an empty target is not
    returned. *)
Lemma resolveAlias_present_value_counterexample :
  ¬ (∀ (r : route) (own : gmap string jsval) (actionName : string)
       (method : option string) (v : jsval),
        aliases r = JObject CPlain own →
        own !! (default "GET" method +:+ " " +:+ actionName) = None →
        own !! actionName = Some v →
        resolveAlias r actionName method = v).
Proof.
  intros H.
  specialize (H (Sample.make_route "/" JUndefined
                   (JObject CPlain {[ "foo" := JStr "" ]}) None)
                {[ "foo" := JStr "" ]} "foo" None (JStr "")
                eq_refl eq_refl eq_refl).
  discriminate H.
Qed.

(** C4, amended: with the method defaulting to GET, [resolveAlias] returns
    the value the alias table holds under exactly the key [method actionName]
    when that value is truthy, otherwise the value under exactly the key
    [actionName] when that value is truthy, otherwise the action name
    unchanged; no other key of the table has any influence.  (Names that the
    table inherits rather than holds are left aside.) *)
Theorem resolveAlias_exact_keys (r : route) (c : jsclass)
    (own : gmap string jsval) (actionName : string) (method : option string) :
  let key := default "GET" method +:+ " " +:+ actionName in
  aliases r = JObject c own →
  JS.inherited c actionName = None →
  resolveAlias r actionName method =
    match alias_for own key with
    | Some v => v
    | None =>
        match alias_for own actionName with
        | Some v => v
        | None => JStr actionName
        end
    end
  ∧ ∀ r' own',
      aliases r' = JObject c own' →
      own' !! key = own !! key →
      own' !! actionName = own !! actionName →
      resolveAlias r' actionName method = resolveAlias r actionName method.
Proof.
  intros key Hal Hinh. split.
  - by apply (resolveAlias_unfold r c own).
  - intros r' own' Hal' Hk Ha.
    rewrite (resolveAlias_unfold r c own), (resolveAlias_unfold r' c own');
      try done.
    unfold alias_for. fold key. by rewrite Hk, Ha.
Qed.

Lemma resolveAlias_exact_keys_witness :
  resolveAlias Sample.admin "users" (Some "POST") = JStr "users.create"
  ∧ resolveAlias Sample.admin "users" None = JStr "users".
Proof.
  split.
  - exact (proj1 (resolveAlias_exact_keys Sample.admin CPlain
                    {[ "POST users" := JStr "users.create" ]}
                    "users" (Some "POST") eq_refl eq_refl)).
  - exact (proj1 (resolveAlias_exact_keys Sample.admin CPlain
                    {[ "POST users" := JStr "users.create" ]}
                    "users" None eq_refl eq_refl)).
Defined.

(** ** Body parsers *)

Section ParserFacts.

Context (env : Env).

Lemma outcome_at_cons p ps req i :
  outcome_at (p :: ps) req (S i) = outcome_at ps (p req).1 i.
Proof. done. Qed.

Lemma mapSeries_failure ps : ∀ k req i,
  JS.truthy (outcome_at ps req i) = true →
  (∀ j, (j < i)%nat → JS.truthy (outcome_at ps req j) = false) →
  mapSeries env k ps req
  = (EvParser <$> seq k (S i),
     Throw (new_InvalidRequestBodyError env
              (JS.get (outcome_at ps req i) "body")
              (JS.get (outcome_at ps req i) "message"))).
Proof.
  induction ps as [|p ps IH]; intros k req i Hfail Hfirst.
  - by destruct i.
  - cbn [mapSeries]. destruct i as [|i].
    + unfold outcome_at in *. simpl in *.
      destruct (p req) as [req' err]. simpl in *. by rewrite Hfail.
    + pose proof (Hfirst 0%nat ltac:(lia)) as H0.
      rewrite outcome_at_cons in *. unfold outcome_at in H0. simpl in H0.
      assert (Hfirst' : ∀ j, (j < i)%nat →
                JS.truthy (outcome_at ps (p req).1 j) = false).
      { intros j Hj. rewrite <- outcome_at_cons. apply Hfirst. lia. }
      specialize (IH (S k) (p req).1 i Hfail Hfirst').
      destruct (p req) as [req' err]. simpl in *. by rewrite H0, IH.
Qed.

Lemma mapSeries_success ps : ∀ k req,
  (∀ j, (j < length ps)%nat → JS.truthy (outcome_at ps req j) = false) →
  mapSeries env k ps req = (EvParser <$> seq k (length ps), Ok (thread ps req)).
Proof.
  induction ps as [|p ps IH]; intros k req Hall; [done|].
  cbn [mapSeries].
  pose proof (Hall 0%nat ltac:(simpl; lia)) as H0.
  unfold outcome_at in H0. simpl in H0.
  assert (Hall' : ∀ j, (j < length ps)%nat →
            JS.truthy (outcome_at ps (p req).1 j) = false).
  { intros j Hj. rewrite <- outcome_at_cons. apply Hall. simpl. lia. }
  specialize (IH (S k) (p req).1 Hall').
  change (thread (p :: ps) req) with (thread ps (p req).1).
  destruct (p req) as [req' err]. simpl in *. by rewrite H0, IH.
Qed.

Lemma has_body_method_spec m :
  has_body_method m = true ↔ m = "POST" ∨ m = "PUT" ∨ m = "PATCH".
Proof.
  unfold has_body_method. simpl. rewrite !orb_true_iff, !String.eqb_eq.
  intuition discriminate.
Qed.

End ParserFacts.

(** C5: the parsers run only for POST, PUT and PATCH on a route that has
    parsers; they run one after the other, each on the request as the
    previous one left it; the first one that reports a failure ends the
    series with an InvalidRequestBodyError made from the body and the message
    of that failure, and no later parser is called; in every other case the
    stage does nothing. *)
Theorem parseStage_series (env : Env) (r : route) (req : request) :
  (has_body_method (req_method req) = true
   ↔ req_method req = "POST" ∨ req_method req = "PUT"
     ∨ req_method req = "PATCH")
  ∧ (has_body_method (req_method req) = false
     ∨ parsers r = None ∨ parsers r = Some [] →
     parseStage env r req = ([], Ok req))
  ∧ (∀ ps, has_body_method (req_method req) = true → parsers r = Some ps →
       (∀ i, (i < length ps)%nat →
             JS.truthy (outcome_at ps req i) = true →
             (∀ j, (j < i)%nat → JS.truthy (outcome_at ps req j) = false) →
             parseStage env r req
             = (EvParser <$> seq 0 (S i),
                Throw (new_InvalidRequestBodyError env
                         (JS.get (outcome_at ps req i) "body")
                         (JS.get (outcome_at ps req i) "message"))))
       ∧ ((∀ j, (j < length ps)%nat →
                JS.truthy (outcome_at ps req j) = false) →
          parseStage env r req
          = (EvParser <$> seq 0 (length ps), Ok (thread ps req))))
  ∧ (∀ actionName query t err,
       whitelistStage env r (aliasStage r actionName req) = ([], Ok tt) →
       parseStage env r req = (t, Throw err) →
       callAction env r actionName req query = t ++ errorHandler env err).
Proof.
  split; [apply has_body_method_spec|]. split; [|split].
  - unfold parseStage. intros [H | [H | H]]; rewrite H; try done.
    + by destruct (parsers r).
    + by rewrite andb_false_r.
  - intros ps Hm Hps. unfold parseStage. rewrite Hps, Hm. split.
    + intros i Hi Hfail Hfirst.
      destruct ps as [|p ps]; [simpl in Hi; lia|].
      by apply mapSeries_failure.
    + intros Hall. destruct ps as [|p ps]; [done|].
      by apply mapSeries_success.
  - intros actionName query t err Hwl Hparse.
    unfold callAction, pipeline. by rewrite Hwl; simpl; rewrite Hparse.
Qed.

Lemma parseStage_series_witness :
  parseStage Sample.env Sample.admin
    (Sample.request_of "POST" "/admin/users" (JStr "{oops"))
  = ([EvParser 0],
     Throw (new_InvalidRequestBodyError Sample.env
              (JStr "{oops") (JStr "Unexpected token")))
  ∧ parseStage Sample.env Sample.admin
      (Sample.request_of "GET" "/admin/users" (JStr "{oops"))
    = ([], Ok (Sample.request_of "GET" "/admin/users" (JStr "{oops"))).
Proof.
  split.
  - apply (proj1 (proj1 (proj2 (proj2 (parseStage_series Sample.env
             Sample.admin
             (Sample.request_of "POST" "/admin/users" (JStr "{oops")))))
             [Sample.json_parser; Sample.urlencoded_parser]
             eq_refl eq_refl) 0%nat); [simpl; lia | reflexivity |].
    intros j Hj. lia.
  - apply (proj1 (proj2 (parseStage_series Sample.env Sample.admin
             (Sample.request_of "GET" "/admin/users" (JStr "{oops"))))).
    by left.
Defined.

(** ** Response encoding *)

Section EncoderFacts.

Context (env : Env).

Lemma branch_index_inj b b' : branch_index b = branch_index b' → b = b'.
Proof. by destruct b, b'. Qed.

Lemma selected_eligible data : eligible (selected data) data.
Proof.
  unfold selected, eligible.
  destruct (JS.is_nullish data) eqn:E1;
    [|destruct (JS.isBuffer data) eqn:E2;
      [|destruct (JS.isObject data
                  && JS.loose_eq_string (JS.get data "type") "Buffer") eqn:E3;
        [|destruct (JS.isStream data) eqn:E4;
          [|destruct (JS.isObject data || JS.isArray data) eqn:E5;
            [|destruct (JS.isString data) eqn:E6]]]]];
    (split; [done|]);
    intros b' Hlt; destruct b'; simpl in Hlt; try lia; done.
Qed.

Lemma eligible_unique b data : eligible b data → b = selected data.
Proof.
  intros [Hb Hbefore]. destruct (selected_eligible data) as [Hs Hsbefore].
  apply branch_index_inj.
  destruct (lt_eq_lt_dec (branch_index b) (branch_index (selected data)))
    as [[Hlt | Heq] | Hgt]; [|done|].
  - specialize (Hsbefore b Hlt). congruence.
  - specialize (Hbefore (selected data) Hgt). congruence.
Qed.

Lemma encode_selected responseType data :
  encode env responseType data
  = branch_body env (selected data) responseType data.
Proof.
  unfold encode, selected.
  repeat match goal with
         | |- context [if ?c then _ else _] =>
             lazymatch c with
             | JS.truthy _ => fail
             | negb _ => fail
             | _ => destruct c
             end
         end; try done.
  simpl. by destruct (JS.truthy responseType).
Qed.

Lemma respond_outcome ctx ep data :
  let prefix :=
    EvStatusCode 200 ::
    (if JS.truthy (ctx_requestID ctx)
     then [EvSetHeader "Request-Id" (ctx_requestID ctx)] else []) in
  match encode env (ep_responseType ep) data with
  | (t, Ok _) =>
      respond env ctx ep data
      = (prefix ++ t ++ [EvMetricFinish (ctx_id ctx)], Ok tt)
  | (t, Throw _) =>
      respond env ctx ep data
      = (prefix ++ t,
         Throw (new_InvalidResponseType env (JS.typeof data)))
  end.
Proof.
  unfold respond.
  destruct (encode env (ep_responseType ep) data) as [t [[]|err]];
    destruct (JS.truthy (ctx_requestID ctx)); simpl;
    by rewrite ?app_nil_r.
Qed.

(** When the stages before it succeed, the chain is their events followed by
    the call of the action. *)
Lemma pipeline_invoke r actionName req query t1 t2 req' t3 ep t4 ctx0 t5 ctx :
  let name := aliasStage r actionName req in
  let params := mergeParams query (req_body req') in
  whitelistStage env r name = (t1, Ok tt) →
  parseStage env r req = (t2, Ok req') →
  resolveStage env name params = (t3, Ok ep) →
  contextStage env params = (t4, Ok ctx0) →
  authStage env r req' query ctx0 = (t5, Ok ctx) →
  pipeline env r actionName req query
  = ((t1 ++ t2 ++ t3 ++ t4 ++ t5 ++ (invokeStage env ctx ep params).1),
     (invokeStage env ctx ep params).2).
Proof.
  intros name params Hw Hp Hr Hc Ha. unfold pipeline. fold name.
  rewrite Hw. cbn [Promise.then_]. rewrite Hp. cbn [Promise.then_].
  fold params. rewrite Hr. cbn [Promise.then_]. rewrite Hc.
  cbn [Promise.then_]. rewrite Ha. cbn [Promise.then_].
  by destruct (invokeStage env ctx ep params).
Qed.

Lemma invokeStage_outcome ctx ep params data :
  call_action env ctx ep params = Ok data →
  invokeStage env ctx ep params
  = (EvCallAction ctx ep params :: (respond env ctx ep data).1,
     (respond env ctx ep data).2).
Proof.
  intros Hcall. unfold invokeStage. rewrite Hcall.
  cbn [Promise.then_ Promise.emit Promise.lift].
  by destruct (respond env ctx ep data).
Qed.

End EncoderFacts.

(** C6: for every result value and declared response type the cascade takes
    exactly one of its seven branches, the first one in the written order
    whose condition holds, and the encoder does what that branch says; when a
    step of the encoding throws, the promise is rejected with an
    InvalidResponseType made from the type of the value, which the error
    handler of the chain then reports. *)
Theorem encode_one_branch (env : Env) (responseType data : jsval) :
  eligible (selected data) data
  ∧ (∀ b, eligible b data → b = selected data)
  ∧ encode env responseType data
    = branch_body env (selected data) responseType data
  ∧ (∀ ctx ep t err,
       encode env (ep_responseType ep) data = (t, Throw err) →
       ∃ t',
         respond env ctx ep data
         = (t', Throw (new_InvalidResponseType env (JS.typeof data)))
         ∧ Promise.catch (respond env ctx ep data) (errorHandler env)
           = t' ++ errorHandler env
                     (new_InvalidResponseType env (JS.typeof data)))
  ∧ (∀ ctx ep t,
       encode env (ep_responseType ep) data = (t, Ok tt) →
       ∃ t', respond env ctx ep data = (t', Ok tt)
             ∧ Promise.catch (respond env ctx ep data) (errorHandler env) = t')
  ∧ (∀ r actionName req query t1 t2 req' t3 ep t4 ctx0 t5 ctx t err,
       let name := aliasStage r actionName req in
       let params := mergeParams query (req_body req') in
       whitelistStage env r name = (t1, Ok tt) →
       parseStage env r req = (t2, Ok req') →
       resolveStage env name params = (t3, Ok ep) →
       contextStage env params = (t4, Ok ctx0) →
       authStage env r req' query ctx0 = (t5, Ok ctx) →
       call_action env ctx ep params = Ok data →
       encode env (ep_responseType ep) data = (t, Throw err) →
       ∃ t', callAction env r actionName req query
             = t' ++ errorHandler env
                       (new_InvalidResponseType env (JS.typeof data))).
Proof.
  split; [apply selected_eligible|].
  split; [intros b; apply eligible_unique|].
  split; [apply encode_selected|]. split; [|split].
  - intros ctx ep t err He.
    pose proof (respond_outcome env ctx ep data) as H. rewrite He in H.
    simpl in H. rewrite H. eauto.
  - intros ctx ep t He.
    pose proof (respond_outcome env ctx ep data) as H. rewrite He in H.
    simpl in H. rewrite H. eauto.
  - intros r actionName req query t1 t2 req' t3 ep t4 ctx0 t5 ctx t err
      name params Hw Hp Hr Hc Ha Hcall He.
    unfold callAction.
    rewrite (pipeline_invoke env r actionName req query t1 t2 req' t3 ep t4
               ctx0 t5 ctx Hw Hp Hr Hc Ha).
    fold params. rewrite (invokeStage_outcome env ctx ep params data Hcall).
    pose proof (respond_outcome env ctx ep data) as H. rewrite He in H.
    simpl in H. rewrite H. simpl. eauto.
Qed.

Lemma encode_one_branch_witness :
  let envelope := JObject CPlain {[ "type" := JStr "Buffer" ]} in
  selected envelope = BrEnvelope
  ∧ (∃ t', respond Sample.env
             (broker_createNewContext Sample.env "api-gw.rest" ∅)
             Sample.posts_list envelope
           = (t', Throw (new_InvalidResponseType Sample.env "object")))
  ∧ ∃ t', httpHandler Sample.env Sample.gateway
            (Sample.request_of "GET" "/api/posts/list" envelope)
          = t' ++ errorHandler Sample.env
                    (new_InvalidResponseType Sample.env "object").
Proof.
  intros envelope.
  pose proof (encode_one_branch Sample.env JUndefined envelope)
    as (_ & _ & _ & Hfail & _ & Hchain).
  split; [reflexivity|]. split.
  - destruct (Hfail (broker_createNewContext Sample.env "api-gw.rest" ∅)
                Sample.posts_list [] (JS.TypeError "invalid envelope")
                eq_refl) as (t' & H & _).
    by exists t'.
  - exact (Hchain Sample.public "posts.list"
             (Sample.request_of "GET" "/api/posts/list" envelope) JUndefined
             [] [] _ [] _ _ _ [] _ [] (JS.TypeError "invalid envelope")
             eq_refl eq_refl eq_refl eq_refl eq_refl eq_refl eq_refl).
Defined.

(** ** Error mapping *)

Section ErrorFacts.

Context (env : Env).

Lemma pick_lookup v keys k :
  (list_to_map
     (omap (λ k, if JS.has_in v k then Some (k, JS.get v k) else None) keys)
   : gmap string jsval) !! k
  = if decide (k ∈ keys)
    then (if JS.has_in v k then Some (JS.get v k) else None)
    else None.
Proof.
  induction keys as [|a keys IH]; csimpl.
  - rewrite lookup_empty. by destruct (decide (k ∈ [])).
  - destruct (decide (k = a)) as [-> | Hne].
    + rewrite decide_True by apply list_elem_of_here.
      destruct (JS.has_in v a) eqn:E; csimpl.
      * by rewrite lookup_insert_eq.
      * rewrite IH. by destruct (decide _).
    + assert (Hiff : k ∈ a :: keys ↔ k ∈ keys).
      { rewrite elem_of_cons. intuition. }
      rewrite (decide_ext _ _ _ _ Hiff).
      destruct (JS.has_in v a); csimpl; [|done].
      by rewrite lookup_insert_ne.
Qed.

Lemma get_not_in c props k :
  JS.has_in (JObject c props) k = false → JS.get (JObject c props) k = JUndefined.
Proof.
  simpl. destruct (props !! k); [done|]. by destruct (JS.inherited c k).
Qed.

Lemma picked_fields c props k :
  json_field (JS.pick (JObject c props) error_fields) k
  ↔ k ∈ error_fields ∧ json_omits (JS.get (JObject c props) k) = false.
Proof.
  unfold JS.pick, json_field. set (err := JObject c props). split.
  - intros (v & Hv & Hom). rewrite pick_lookup in Hv.
    destruct (decide (k ∈ error_fields)); [|done].
    destruct (JS.has_in err k); [|done]. by injection Hv as <-.
  - intros [Hin Hom]. exists (JS.get err k). split; [|done].
    rewrite pick_lookup, decide_True by done.
    destruct (JS.has_in err k) eqn:E; [done|].
    apply get_not_in in E. fold err in E. rewrite E in Hom. done.
Qed.

Lemma ToInt32_small n : -2 ^ 31 ≤ n < 2 ^ 31 → JS.ToInt32 n = n.
Proof.
  intros Hn. unfold JS.ToInt32.
  destruct (Z.ltb_spec (n mod 2 ^ 32) (2 ^ 31)) as [Hlt | Hge].
  - destruct (Z.le_gt_cases 0 n) as [Hpos | Hneg].
    + apply Z.mod_small. lia.
    + assert (n mod 2 ^ 32 = n + 2 ^ 32); [|lia].
      symmetry. apply (Z.mod_unique_pos _ _ (-1)); lia.
  - destruct (Z.le_gt_cases 0 n) as [Hpos | Hneg].
    + rewrite Z.mod_small in Hge; lia.
    + assert (n mod 2 ^ 32 = n + 2 ^ 32); [|lia].
      symmetry. apply (Z.mod_unique_pos _ _ (-1)); lia.
Qed.

Lemma valid_status_range n :
  100 ≤ n ≤ 999 → ServerResponse.valid_status n = true ∧ JS.ToInt32 n = n.
Proof.
  intros Hn. assert (Hsmall : JS.ToInt32 n = n) by (apply ToInt32_small; lia).
  split; [|done]. unfold ServerResponse.valid_status. rewrite Hsmall.
  apply andb_true_iff. split; apply Z.leb_le; lia.
Qed.

Lemma error_headers_valid err :
  (JS.truthy (JS.get err "ctx") = true → sendable (JS.get (JS.get err "ctx") "id")) →
  forallb (λ kv : string * jsval, ServerResponse.header_value kv.2)
    (error_headers err) = true.
Proof.
  intros Hid. unfold error_headers.
  destruct (JS.truthy (JS.get err "ctx")); [|done].
  destruct (Hid eq_refl) as [-> | (s & -> & Hs)]; [done|]. simpl.
  rewrite Hs. done.
Qed.

Lemma errorHandler_accepted c props :
  let err := JObject c props in
  ServerResponse.valid_status (error_code err) = true →
  (JS.truthy (JS.get err "ctx") = true →
   sendable (JS.get (JS.get err "ctx") "id")) →
  errorHandler env err
  = EvWriteHead (error_code err) (error_headers err) :: error_body env err.
Proof.
  intros err Hcode Hid. unfold errorHandler, ServerResponse.writeHead.
  cbn [JS.is_nullish err]. by rewrite Hcode, (error_headers_valid err Hid).
Qed.

Lemma errorHandler_refused err :
  ServerResponse.valid_status (error_code err) = false →
  errorHandler env err = [].
Proof.
  intros Hcode. unfold errorHandler, ServerResponse.writeHead.
  destruct (JS.is_nullish err); [done|]. by rewrite Hcode.
Qed.

(** the handler writes either nothing or the head followed by the body *)
Lemma errorHandler_cases err :
  errorHandler env err = []
  ∨ errorHandler env err
    = EvWriteHead (error_code err) (error_headers err) :: error_body env err.
Proof.
  unfold errorHandler, ServerResponse.writeHead.
  destruct (JS.is_nullish err); [by left|].
  destruct (ServerResponse.valid_status _); [|by left].
  destruct (forallb _ _); [by right | by left].
Qed.

Lemma error_metrics_cases err :
  error_metrics err = []
  ∨ error_metrics err
    = [EvMetricFinish (JS.get (JS.get err "ctx") "id")].
Proof.
  unfold error_metrics. destruct (JS.truthy _); [|by left].
  destruct (JS.get (JS.get err "ctx") "_metricFinish"); auto.
Qed.

Lemma error_body_headers err table :
  fold_left record_headers (error_body env err) table = table.
Proof.
  unfold error_body. destruct (JSON_stringify env _ _); [|done].
  by destruct (error_metrics_cases err) as [-> | ->].
Qed.

Lemma error_body_status err :
  omap (λ ev, match ev with
              | EvStatusCode code => Some code
              | EvWriteHead code _ => Some (JS.ToInt32 code)
              | _ => None
              end) (error_body env err) = [].
Proof.
  unfold error_body. destruct (JSON_stringify env _ _); [|done].
  by destruct (error_metrics_cases err) as [-> | ->].
Qed.

Lemma response_headers_error t err :
  response_headers
    (t ++ EvWriteHead (error_code err) (error_headers err) :: error_body env err)
  = fold_left put_header (error_headers err) (response_headers t).
Proof.
  unfold response_headers. rewrite fold_left_app. cbn [fold_left].
  apply error_body_headers.
Qed.

Lemma response_status_error t err :
  response_status
    (t ++ EvWriteHead (error_code err) (error_headers err) :: error_body env err)
  = Some (JS.ToInt32 (error_code err)).
Proof.
  unfold response_status. rewrite omap_app. csimpl.
  rewrite error_body_status. apply last_snoc.
Qed.

(** the response once the handler has answered, whatever was set on it
    before *)
Lemma response_after_error c props t :
  let err := JObject c props in
  let ctx := JS.get err "ctx" in
  let response := t ++ errorHandler env err in
  ServerResponse.valid_status (error_code err) = true →
  (JS.truthy ctx = true → sendable (JS.get ctx "id")) →
  response_status response = Some (JS.ToInt32 (error_code err))
  ∧ response_headers response !! "content-type"
    = Some (JStr "application/json")
  ∧ response_headers response !! "request-id"
    = if JS.truthy ctx then Some (JS.get ctx "id")
      else response_headers t !! "request-id".
Proof.
  intros err ctx response Hcode Hid. unfold response.
  assert (Heq : errorHandler env err
                = EvWriteHead (error_code err) (error_headers err)
                  :: error_body env err)
    by exact (errorHandler_accepted c props Hcode Hid).
  rewrite Heq, response_status_error, response_headers_error.
  split; [done|]. unfold error_headers. fold ctx.
  destruct (JS.truthy ctx); cbn [app fold_left]; unfold put_header;
    cbn [fst snd];
    change (lowercase "Content-type") with "content-type";
    try change (lowercase "Request-Id") with "request-id".
  - split; [|apply lookup_insert_eq].
    rewrite lookup_insert_ne by done. apply lookup_insert_eq.
  - split; [apply lookup_insert_eq|]. by rewrite lookup_insert_ne.
Qed.

End ErrorFacts.

(** C7, as stated, fails: an error without [code] and [data], such as a
    TypeError thrown by a collaborator, gives a body without those two
    fields. *)
Lemma errorHandler_four_fields_counterexample :
  ¬ (∀ (c : jsclass) (props : gmap string jsval) (k : string),
       json_field (JS.pick (JObject c props) error_fields) k
       ↔ k ∈ error_fields).
Proof.
  intros H.
  destruct (proj2 (H (CError "TypeError") {[ "message" := JStr "boom" ]}
                     "data"))
    as (v & Hv & _).
  - apply (bool_decide_unpack _). vm_compute. exact I.
  - vm_compute in Hv. discriminate Hv.
Qed.

(** An error whose code is a number that [writeHead] refuses, such as the
    code 11000 of a database driver, gets no response at all. *)
Example errorHandler_status_out_of_range :
  errorHandler Sample.env (Sample.error "MongoError" "duplicate key" 11000 JNull)
  = [].
Proof. reflexivity. Qed.

(** When the encoder fails, the Request-Id that the chain has already set
    stays on the response, although the error has no context. *)
Example encoder_failure_keeps_request_id :
  let envelope := JObject CPlain {[ "type" := JStr "Buffer" ]} in
  let trace :=
    httpHandler Sample.env Sample.gateway
      (Sample.request_of "GET" "/api/posts/list" envelope) in
  JS.get (new_InvalidResponseType Sample.env "object") "ctx" = JUndefined
  ∧ response_status trace = Some 500
  ∧ response_headers trace !! "request-id" = Some (JStr "req-1").
Proof. repeat split; reflexivity. Qed.

(** C7, amended: an error object caught at the end of the chain is answered
    with the status [err.code] when that is a number and 500 otherwise,
    provided [writeHead] accepts it, which it does for every status from 100
    to 999; with a JSON content type; with the id of [err.ctx] as
    Request-Id when the error has a context, and otherwise with the
    Request-Id the chain had set before it failed, if any; and [res.end] is
    given, when the serialization returns, the serialization of an object
    that holds, of the fields name, message, code and data, those the error
    has with a value that JSON keeps, and no other field.  When [writeHead]
    refuses the status, nothing is written.  (The id of a context is taken
    to be null or a string that can be sent as a header value.) *)
Theorem errorHandler_response (env : Env) (c : jsclass)
    (props : gmap string jsval) :
  let err := JObject c props in
  let ctx := JS.get err "ctx" in
  let errObj := JS.pick err error_fields in
  let code := error_code err in
  let headers := error_headers err in
  (∀ n, JS.get err "code" = JNum n → code = n)
  ∧ (JS.isNumber (JS.get err "code") = false → code = 500)
  ∧ (100 ≤ code ≤ 999 →
     ServerResponse.valid_status code = true ∧ JS.ToInt32 code = code)
  ∧ (ServerResponse.valid_status code = false → errorHandler env err = [])
  ∧ (ServerResponse.valid_status code = true →
     (JS.truthy ctx = true → sendable (JS.get ctx "id")) →
     ∃ rest,
       errorHandler env err = EvWriteHead code headers :: rest
       ∧ (∀ text, JSON_stringify env errObj (Some 2%nat) = Ok text →
                  ∃ rest', rest = EvEnd text :: rest')
       ∧ ((∃ thrown, JSON_stringify env errObj (Some 2%nat) = Throw thrown) →
          rest = []))
  ∧ header "Content-Type" headers = Some (JStr "application/json")
  ∧ (is_Some (header "Request-Id" headers) ↔ JS.truthy ctx = true)
  ∧ (∀ k, json_field errObj k
          ↔ k ∈ error_fields ∧ json_omits (JS.get err k) = false)
  ∧ (∀ actionName r req query t,
       pipeline env r actionName req query = (t, Throw err) →
       let response := callAction env r actionName req query in
       response = t ++ errorHandler env err
       ∧ (ServerResponse.valid_status code = true →
          (JS.truthy ctx = true → sendable (JS.get ctx "id")) →
          response_status response = Some (JS.ToInt32 code)
          ∧ response_headers response !! "content-type"
            = Some (JStr "application/json")
          ∧ response_headers response !! "request-id"
            = if JS.truthy ctx then Some (JS.get ctx "id")
              else response_headers t !! "request-id")).
Proof.
  intros err ctx errObj code headers.
  split; [by unfold code, error_code; intros n ->|]. split.
  { unfold code, error_code. by destruct (JS.get err "code"). }
  split; [apply valid_status_range|].
  split; [apply errorHandler_refused|]. split.
  { intros Hcode Hid.
    assert (Heq : errorHandler env err
                  = EvWriteHead code headers :: error_body env err)
      by exact (errorHandler_accepted env c props Hcode Hid).
    rewrite Heq. exists (error_body env err). split; [done|].
    unfold error_body. fold errObj. split.
    - intros text ->. eauto.
    - by intros [thrown ->]. }
  split; [done|]. split.
  { unfold headers, error_headers. fold ctx. destruct (JS.truthy ctx); simpl.
    - split; [done | intros _; by eexists].
    - split; [by intros [v Hv] | done]. }
  split; [apply picked_fields|].
  intros actionName r req query t Hp response.
  assert (Hres : response = t ++ errorHandler env err).
  { unfold response, callAction. by rewrite Hp. }
  split; [done|]. intros Hcode Hid. rewrite Hres.
  exact (response_after_error env c props t Hcode Hid).
Qed.

Lemma errorHandler_response_witness :
  let envelope := JObject CPlain {[ "type" := JStr "Buffer" ]} in
  let response :=
    callAction Sample.env Sample.public "posts.list"
      (Sample.request_of "GET" "/api/posts/list" envelope) JUndefined in
  response_status response = Some 500
  ∧ response_headers response !! "content-type"
    = Some (JStr "application/json")
  ∧ response_headers response !! "request-id" = Some (JStr "req-1").
Proof.
  intros envelope response.
  destruct (errorHandler_response Sample.env (CError "InvalidResponseType")
              (list_to_map [("message", JStr "object"); ("code", JNum 500);
                            ("data", JUndefined)]))
    as (_ & _ & _ & _ & _ & _ & _ & _ & Hchain).
  destruct (Hchain "posts.list" Sample.public
              (Sample.request_of "GET" "/api/posts/list" envelope) JUndefined
              _ eq_refl) as [_ Hres].
  destruct Hres as (Hstatus & Htype & Hid); [reflexivity | discriminate|].
  split; [exact Hstatus|]. split; [exact Htype | exact Hid].
Defined.

(** ** Whitelist rejection *)

Section RejectionFacts.

Context (env : Env).

Lemma errorHandler_no_parser err ev :
  ev ∈ errorHandler env err → ¬ is_parser_event ev.
Proof.
  destruct (errorHandler_cases env err) as [-> | ->].
  { intros H. by apply elem_of_nil in H. }
  intros H. apply elem_of_cons in H as [-> | H]; [by intros []|].
  unfold error_body in H. destruct (JSON_stringify env _ _).
  - apply elem_of_cons in H as [-> | H]; [by intros []|].
    destruct (error_metrics_cases err) as [Hm | Hm]; rewrite Hm in H.
    + by apply elem_of_nil in H.
    + apply elem_of_cons in H as [-> | H]; [by intros []|].
      by apply elem_of_nil in H.
  - by apply elem_of_nil in H.
Qed.

Lemma get_picked c props k :
  k ∈ error_fields →
  JS.get (JObject c props) k ≠ JUndefined →
  JS.get (JS.pick (JObject c props) error_fields) k = JS.get (JObject c props) k.
Proof.
  intros Hin Hdef. unfold JS.pick.
  change (JS.get (JObject CPlain ?m) k)
    with (match m !! k with
          | Some x => x
          | None => default JUndefined (JS.inherited CPlain k)
          end).
  rewrite pick_lookup, decide_True by done.
  destruct (JS.has_in (JObject c props) k) eqn:E; [done|].
  by apply get_not_in in E.
Qed.

End RejectionFacts.

(** C8, as stated, fails: the status of the answer is the code of the
    service-not-found error, and with the error class of the moleculer
    releases the gateway is written for that code is 501. *)
Lemma whitelist_rejection_status_counterexample :
  ¬ (∀ (env : Env) (r : route) (actionName : string) (req : request)
       (query : jsval),
       hasWhitelist r = true →
       checkWhitelist env r (aliasStage r actionName req) = Ok false →
       ∃ headers rest,
         callAction env r actionName req query
         = EvWriteHead 404 headers :: rest).
Proof.
  intros H.
  destruct (H Sample.env Sample.public "comments.list"
              (Sample.request_of "POST" "/api/comments/list" (JStr "{}"))
              JUndefined eq_refl eq_refl)
    as (headers & rest & Heq).
  vm_compute in Heq. discriminate Heq.
Qed.

(** C8, amended: when the resolved action name, a string, fails the
    whitelist check of the route (whose regular expressions have neither
    the [g] nor the [y] flag), the chain goes straight to the error handler
    with the service-not-found error: no body parser is called, the status
    is the code that error carries (any code from 100 to 999; 501 with the
    class of moleculer 0.7) and the body carries the message that names the
    action. *)
Theorem whitelist_rejection (env : Env) (r : route) (actionName : string)
    (req : request) (query : jsval) (resolved : string) (n : Z)
    (masks : list jsval) :
  let name := aliasStage r actionName req in
  let err := not_available env name in
  let errObj := JS.pick err error_fields in
  name = JStr resolved →
  not_found_code env n →
  100 ≤ n ≤ 999 →
  hasWhitelist r = true →
  whitelist r = JArray masks →
  stateless_masks masks →
  checkWhitelist env r name = Ok false →
  callAction env r actionName req query = errorHandler env err
  ∧ (∃ rest,
       callAction env r actionName req query
       = EvWriteHead n (error_headers err) :: rest
       ∧ response_status (callAction env r actionName req query) = Some n
       ∧ header "Content-Type" (error_headers err)
         = Some (JStr "application/json")
       ∧ ∀ text, JSON_stringify env errObj (Some 2%nat) = Ok text →
                 ∃ rest', rest = EvEnd text :: rest')
  ∧ json_field errObj "message"
  ∧ JS.get errObj "message"
    = JStr ("Action '" +:+ resolved +:+ "' is not available!")
  ∧ (∀ ev, ev ∈ callAction env r actionName req query → ¬ is_parser_event ev).
Proof.
  intros name err errObj Hname Hclass Hn Hhas _ _ Hcheck.
  assert (Hcall : callAction env r actionName req query = errorHandler env err).
  { unfold callAction, pipeline, whitelistStage. fold name.
    by rewrite Hhas, Hcheck. }
  destruct (Hclass ("Action '" +:+ JS.toString name +:+ "' is not available!")
                   name) as (c & props & Herr & Hcode & Hmsg & Hctx).
  assert (Hstatus : error_code (JObject c props) = n)
    by (unfold error_code; by rewrite Hcode).
  split; [done|]. rewrite Hcall. clear Hcall.
  subst errObj err. unfold not_available. rewrite Herr.
  rewrite Hname in Hmsg. cbn [JS.toString] in Hmsg.
  split; [|split; [|split]].
  - rewrite (errorHandler_accepted env c props).
    + rewrite Hstatus. eexists. split; [done|]. split.
      { pose proof (response_status_error env [] (JObject c props)) as Hs.
        cbn [app] in Hs. rewrite Hstatus in Hs. rewrite Hs.
        f_equal. by apply valid_status_range. }
      split; [done|]. intros text Htext. unfold error_body.
      rewrite Htext. eauto.
    + rewrite Hstatus. by apply valid_status_range.
    + by rewrite Hctx.
  - apply picked_fields. split; [|by rewrite Hmsg].
    apply (bool_decide_unpack _). vm_compute. exact I.
  - rewrite get_picked; [done| |by rewrite Hmsg].
    apply (bool_decide_unpack _). vm_compute. exact I.
  - apply errorHandler_no_parser.
Qed.

Lemma whitelist_rejection_witness :
  ∃ rest,
    httpHandler Sample.env Sample.gateway
      (Sample.request_of "POST" "/api/comments/list" (JStr "{}"))
    = EvWriteHead 501 [("Content-type", JStr "application/json")] :: rest.
Proof.
  destruct (whitelist_rejection Sample.env Sample.public "comments.list"
              (Sample.request_of "POST" "/api/comments/list" (JStr "{}"))
              JUndefined "comments.list" 501
              [JStr "posts.*"; JRegExp "math." ""])
    as (_ & (rest & H & _) & _).
  - reflexivity.
  - intros message data. by eexists _, _.
  - lia.
  - reflexivity.
  - reflexivity.
  - intros source flags Hin.
    apply elem_of_cons in Hin as [[=] | Hin].
    apply elem_of_cons in Hin as [[= -> ->] | Hin];
      [|by apply elem_of_nil in Hin].
    split; apply not_elem_of_nil.
  - reflexivity.
  - exists rest. exact H.
Defined.

(** A path that spells an inherited member of the alias table is not a
    whitelist rejection: on a route with aliases and a whitelist the name
    is then a function, the glob matcher throws a TypeError on it, and the
    answer is the 500 of an error without code. *)
Example scenario_inherited_name :
  let strict :=
    Sample.make_route "/strict" (JArray [JStr "posts.*"])
      (JObject CPlain {[ "list" := JStr "posts.list" ]}) None in
  callAction Sample.env strict "constructor"
    (Sample.request_of "GET" "/strict/constructor" JUndefined) JUndefined
  = errorHandler Sample.env (JS.TypeError "expected a string")
  ∧ response_status
      (callAction Sample.env strict "constructor"
         (Sample.request_of "GET" "/strict/constructor" JUndefined) JUndefined)
    = Some 500.
Proof. split; reflexivity. Qed.

(** ** Route paths *)

Section RouteFacts.

Lemma str_or_empty x : str_or x "" = default "" x.
Proof. destruct x as [s|]; simpl; [|done]. by destruct (String.eqb_spec s ""). Qed.

Lemma str_or_slash s : str_or (Some s) "/" = if decide (s = "") then "/" else s.
Proof.
  simpl. destruct (String.eqb_spec s ""); by destruct (decide (s = "")).
Qed.

End RouteFacts.

(** C9, as stated, fails: a configured path that ends with a slash is kept as
    it is. *)
Lemma createRoute_trailing_slash_counterexample :
  ¬ (∀ (env : Env) (st : settings) (o : route_opts) (r : route),
       createRoute env st o = Ok r →
       JSString.endsWith (path r) "/" = false).
Proof.
  intros H.
  specialize (H Sample.env Sample.no_settings
                {| opt_path := Some "/api/"; opt_whitelist := JUndefined;
                   opt_authorization := JUndefined; opt_aliases := JUndefined;
                   opt_bodyParsers := None |}
                _ eq_refl).
  discriminate H.
Qed.

(** C9, amended: the path of a route is the global path setting followed by
    the path option of the route, each taken as empty when it is missing, and
    kept exactly as written, a trailing slash included; it is ["/"] when
    that concatenation is empty, in particular when no path is configured. *)
Theorem createRoute_path (env : Env) (st : settings) (o : route_opts)
    (r : route) :
  let configured := default "" (set_path st) +:+ default "" (opt_path o) in
  createRoute env st o = Ok r →
  (configured = "" → path r = "/")
  ∧ (configured ≠ "" → path r = configured)
  ∧ (set_path st = None → opt_path o = None → path r = "/")
  ∧ (JSString.endsWith configured "/" = true →
     JSString.endsWith (path r) "/" = true).
Proof.
  intros configured Hr.
  apply createRoute_fields in Hr as (_ & _ & _ & _ & Hpath).
  rewrite !str_or_empty, str_or_slash in Hpath. fold configured in Hpath.
  repeat split.
  - intros He. rewrite Hpath. by rewrite decide_True.
  - intros Hne. rewrite Hpath. by rewrite decide_False.
  - intros Hs Ho. rewrite Hpath. unfold configured. by rewrite Hs, Ho.
  - intros Hends. rewrite Hpath. destruct (decide (configured = "")); [done|].
    exact Hends.
Qed.

Lemma createRoute_path_witness :
  ∃ r, createRoute Sample.env Sample.no_settings
         {| opt_path := Some "/api/"; opt_whitelist := JUndefined;
            opt_authorization := JUndefined; opt_aliases := JUndefined;
            opt_bodyParsers := None |} = Ok r
       ∧ path r = "/api/".
Proof.
  eexists. split; [reflexivity|].
  apply (createRoute_path Sample.env Sample.no_settings
           {| opt_path := Some "/api/"; opt_whitelist := JUndefined;
              opt_authorization := JUndefined; opt_aliases := JUndefined;
              opt_bodyParsers := None |} _ eq_refl).
  discriminate.
Defined.

(** ** Parameters *)

Create HintDb quiet.

Section MergeFacts.

Context (env : Env).

Lemma invocations_app t1 t2 :
  invocations (t1 ++ t2) = invocations t1 ++ invocations t2.
Proof. apply omap_app. Qed.

Lemma quiet_resolve {A} (a : A) : quiet (Promise.resolve a).
Proof. done. Qed.

Lemma quiet_reject {A} err : quiet (@Promise.reject A err).
Proof. done. Qed.

Lemma quiet_lift {A} (x : result A) : quiet (Promise.lift x).
Proof. done. Qed.

Lemma quiet_emit ev :
  (∀ ctx ep params, ev ≠ EvCallAction ctx ep params) →
  quiet (Promise.emit ev).
Proof. intros H. destruct ev; try done. by destruct (H ctx ep params). Qed.

Lemma quiet_then {A B} (c : Chain A) (f : A → Chain B) :
  quiet c → (∀ a, quiet (f a)) → quiet (Promise.then_ c f).
Proof.
  unfold quiet. destruct c as [t [a|err]]; simpl; [|done].
  intros Ht Hf. specialize (Hf a). destruct (f a) as [t' x]. simpl in *.
  by rewrite invocations_app, Ht, Hf.
Qed.

Lemma quiet_try_catch {A} (c : Chain A) (h : jsval → Chain A) :
  quiet c → (∀ err, quiet (h err)) → quiet (Promise.try_catch c h).
Proof.
  unfold quiet. destruct c as [t [a|err]]; simpl; [done|].
  intros Ht Hh. specialize (Hh err). destruct (h err) as [t' x]. simpl in *.
  by rewrite invocations_app, Ht, Hh.
Qed.

Hint Resolve quiet_resolve quiet_reject quiet_lift quiet_then
  quiet_try_catch : quiet.
Hint Extern 1 (quiet (Promise.emit _)) =>
  (apply quiet_emit; intros ? ? ?; discriminate) : quiet.

Local Ltac quiet_cases :=
  repeat match goal with
         | |- quiet (if ?c then _ else _) => destruct c
         | |- quiet (match ?x with _ => _ end) => destruct x
         end;
  eauto 10 with quiet.

Lemma quiet_whitelistStage r name : quiet (whitelistStage env r name).
Proof. unfold whitelistStage. quiet_cases. Qed.

Lemma quiet_mapSeries ps : ∀ i req, quiet (mapSeries env i ps req).
Proof.
  induction ps as [|p ps IH]; intros i req; cbn [mapSeries]; [done|].
  apply quiet_then; [auto with quiet|]. intros _.
  destruct (p req) as [req' err]. destruct (JS.truthy err); auto with quiet.
Qed.

Lemma quiet_parseStage r req : quiet (parseStage env r req).
Proof.
  unfold parseStage.
  destruct (parsers r) as [ps|]; [|done].
  destruct (_ && _); [apply quiet_mapSeries | done].
Qed.

Lemma quiet_resolveStage name params : quiet (resolveStage env name params).
Proof. unfold resolveStage. quiet_cases. Qed.

Lemma quiet_contextStage params : quiet (contextStage env params).
Proof. unfold contextStage. quiet_cases. Qed.

Lemma quiet_authStage r req query ctx : quiet (authStage env r req query ctx).
Proof.
  unfold authStage. destruct (JS.truthy (authorization r)); [|done].
  apply quiet_then; [auto with quiet|]. intros _.
  apply quiet_then; [auto with quiet|]. intros user. quiet_cases.
Qed.

Lemma quiet_encode responseType data : quiet (encode env responseType data).
Proof. unfold encode, set_content_type, end_json. quiet_cases. Qed.

Lemma quiet_respond ctx ep data : quiet (respond env ctx ep data).
Proof.
  unfold respond.
  apply quiet_then; [auto with quiet|]. intros _.
  apply quiet_then; [quiet_cases|]. intros _.
  apply quiet_then; [|auto with quiet].
  apply quiet_try_catch; [apply quiet_encode | auto with quiet].
Qed.

Lemma quiet_errorHandler err : invocations (errorHandler env err) = [].
Proof.
  destruct (errorHandler_cases env err) as [-> | ->]; [done|].
  unfold error_body. simpl. destruct (JSON_stringify env _ _); [|done].
  simpl. by destruct (error_metrics_cases err) as [-> | ->].
Qed.

Lemma assign_empty source :
  JS.assign ∅ source
  = {| params_own := delete "__proto__" (JS.own_enumerable source);
       params_proto := proto_entry source |}.
Proof.
  unfold JS.assign, proto_entry.
  change (params_own ∅) with (∅ : gmap string jsval).
  change (params_proto ∅) with (@None jsval).
  rewrite (right_id_L ∅ (∪)), lookup_empty. cbn [JS.keeps_proto_accessor negb].
  destruct (JS.own_enumerable source !! "__proto__") as [v|]; [|done].
  by destruct (JS.is_prototype v).
Qed.

(** the assignment of a source to an object that holds no [__proto__]
    property and still inherits the accessor *)
Lemma assign_inheriting target source :
  params_own target !! "__proto__" = None →
  JS.keeps_proto_accessor (params_proto target) = true →
  JS.assign target source
  = {| params_own :=
         delete "__proto__" (JS.own_enumerable source) ∪ params_own target;
       params_proto :=
         match proto_entry source with
         | Some p => Some p
         | None => params_proto target
         end |}.
Proof.
  intros Hown Hacc. unfold JS.assign, proto_entry. rewrite Hown, Hacc.
  cbn [negb].
  destruct (JS.own_enumerable source !! "__proto__") as [v|]; [|done].
  by destruct (JS.is_prototype v).
Qed.

Lemma parsed_query_accessor query :
  parsed_query query → JS.keeps_proto_accessor (proto_entry query) = true.
Proof.
  intros [_ H]. unfold proto_entry.
  destruct (JS.own_enumerable query !! "__proto__") as [v|]; [|done].
  by destruct (H v eq_refl) as [[s ->] | [l ->]].
Qed.

Lemma mergeParams_unfold query body :
  parsed_query query →
  mergeParams query body
  = if JS.isObject body then
      {| params_own :=
           delete "__proto__" (JS.own_enumerable body)
           ∪ delete "__proto__" (JS.own_enumerable query);
         params_proto :=
           match proto_entry body with
           | Some p => Some p
           | None => proto_entry query
           end |}
    else
      {| params_own := delete "__proto__" (JS.own_enumerable query);
         params_proto := proto_entry query |}.
Proof.
  intros Hq. unfold mergeParams. rewrite assign_empty.
  destruct (JS.isObject body); [|done].
  rewrite assign_inheriting; [done | apply lookup_delete_eq |].
  by apply parsed_query_accessor.
Qed.

Lemma invocations_then {A B} (c : Chain A) (f : A → Chain B) params :
  quiet c →
  params ∈ invocations (Promise.then_ c f).1 →
  ∃ a, c.2 = Ok a ∧ params ∈ invocations (f a).1.
Proof.
  unfold quiet. destruct c as [t [a|err]]; cbn [Promise.then_ fst snd].
  - intros Ht. destruct (f a) as [t' x] eqn:E. cbn [fst snd].
    rewrite invocations_app, Ht. intros H. exists a. by rewrite E.
  - intros -> H. by apply elem_of_nil in H.
Qed.

Lemma invocations_invokeStage ctx ep params :
  invocations (invokeStage env ctx ep params).1 = [params].
Proof.
  unfold invokeStage.
  set (rest := data <- Promise.lift (call_action env ctx ep params) ;;
               respond env ctx ep data).
  assert (Hq : quiet rest).
  { apply quiet_then; [auto with quiet|]. apply quiet_respond. }
  clearbody rest. unfold quiet in Hq. destruct rest as [t x].
  cbn [Promise.then_ Promise.emit fst snd] in *.
  by rewrite invocations_app, Hq.
Qed.

Lemma invocations_pipeline r actionName req query params :
  params ∈ invocations (pipeline env r actionName req query).1 →
  ∃ t req', parseStage env r req = (t, Ok req')
            ∧ params = mergeParams query (req_body req').
Proof.
  unfold pipeline. intros H.
  apply invocations_then in H as ([] & _ & H);
    [|apply quiet_whitelistStage].
  apply invocations_then in H as (req' & Hparse & H);
    [|apply quiet_parseStage].
  apply invocations_then in H as (ep & _ & H);
    [|apply quiet_resolveStage].
  apply invocations_then in H as (ctx & _ & H);
    [|apply quiet_contextStage].
  apply invocations_then in H as (ctx' & _ & H);
    [|apply quiet_authStage].
  rewrite invocations_invokeStage in H.
  apply list_elem_of_singleton in H.
  destruct (parseStage env r req) as [t x]. simpl in Hparse. subst x.
  by exists t, req'.
Qed.

End MergeFacts.

(** C10, as stated, fails: a query parameter named [__proto__] is not among
    the parameters, whatever the body. *)
Lemma mergeParams_proto_counterexample :
  ¬ (∀ query body : jsval,
       JS.isObject body = false →
       params_own (mergeParams query body) = JS.own_enumerable query).
Proof.
  intros H.
  specialize (H (JObject CNullProto {[ "__proto__" := JStr "x" ]}) JUndefined
                eq_refl).
  apply (f_equal (λ m : gmap string jsval, m !! "__proto__")) in H.
  vm_compute in H. discriminate H.
Qed.

(** C10, amended: for a query and a body as the parsers make them, a body
    that is absent or not an object (a string, a number, a boolean, null) is
    ignored and the parameters are those of the query alone; only a body
    that is an object is laid over them, its fields winning; in both, an
    entry named [__proto__] is never copied as a parameter: it is assigned,
    which makes its value the prototype of the parameters when that value is
    an object or null (the entry of the body replacing that of the query)
    and does nothing otherwise; and whenever the gateway calls an action,
    the parameters of the call are this merge of the query and of the body
    as the parsers left it. *)
Theorem mergeParams_body (env : Env) (query body : jsval) :
  let params := mergeParams query body in
  parsed_query query →
  parsed body = true →
  (JS.isObject body = false → params = mergeParams query JUndefined)
  ∧ (∀ k, k ≠ "__proto__" →
       params_own params !! k
       = match (if JS.isObject body then JS.own_enumerable body !! k
                else None) with
         | Some v => Some v
         | None => JS.own_enumerable query !! k
         end)
  ∧ params_own params !! "__proto__" = None
  ∧ params_proto params
    = match (if JS.isObject body then proto_entry body else None) with
      | Some p => Some p
      | None => proto_entry query
      end
  ∧ (body = JUndefined ∨ body = JNull ∨ (∃ s, body = JStr s)
     ∨ (∃ n, body = JNum n) ∨ (∃ b, body = JBool b) →
     JS.isObject body = false)
  ∧ (∀ r actionName req p,
       p ∈ invocations (callAction env r actionName req query) →
       ∃ t req', parseStage env r req = (t, Ok req')
                 ∧ p = mergeParams query (req_body req')).
Proof.
  intros params Hq _. subst params.
  rewrite (mergeParams_unfold query body Hq).
  split; [|split; [|split; [|split; [|split]]]].
  - intros ->. by rewrite (mergeParams_unfold query JUndefined Hq).
  - intros k Hk. destruct (JS.isObject body); cbn [params_own].
    + rewrite lookup_union, !lookup_delete_ne by done.
      destruct (JS.own_enumerable body !! k),
        (JS.own_enumerable query !! k); done.
    + by rewrite lookup_delete_ne.
  - destruct (JS.isObject body); cbn [params_own].
    + by rewrite lookup_union, !lookup_delete_eq.
    + apply lookup_delete_eq.
  - by destruct (JS.isObject body).
  - intros [-> | [-> | [[s ->] | [[n ->] | [b ->]]]]]; done.
  - intros r actionName req p H.
    apply (invocations_pipeline env r actionName req query).
    unfold callAction, Promise.catch in H.
    destruct (pipeline env r actionName req query) as [t [[]|err]];
      [done|].
    rewrite invocations_app, quiet_errorHandler, app_nil_r in H. done.
Qed.

Lemma mergeParams_body_witness :
  let query :=
    JObject CNullProto {[ "__proto__" := JStr "x"; "page" := JStr "2" ]} in
  let role := JObject CPlain {[ "admin" := JBool true ]} in
  let body := JObject CPlain {[ "__proto__" := role; "page" := JStr "3" ]} in
  mergeParams query (JStr "text") = mergeParams query JUndefined
  ∧ params_own (mergeParams query body) !! "page" = Some (JStr "3")
  ∧ params_own (mergeParams query body) !! "__proto__" = None
  ∧ params_proto (mergeParams query body) = Some role.
Proof.
  intros query role body.
  assert (Hq : parsed_query query).
  { split; [reflexivity|]. intros v [= <-]. left. by eexists. }
  split; [|split; [|split]].
  - by apply (proj1 (mergeParams_body Sample.env query (JStr "text") Hq
                       eq_refl)).
  - exact (proj1 (proj2 (mergeParams_body Sample.env query body Hq eq_refl))
             "page" ltac:(discriminate)).
  - exact (proj1 (proj2 (proj2 (mergeParams_body Sample.env query body Hq
                                  eq_refl)))).
  - exact (proj1 (proj2 (proj2 (proj2 (mergeParams_body Sample.env query body
                                         Hq eq_refl))))).
Defined.

(** ** Scenarios *)

(** A POST to an alias of the admin route: both parsers run, the action is
    the alias target and receives the parsed body. *)
Example scenario_alias :
  let trace :=
    httpHandler Sample.env Sample.gateway
      (Sample.request_of "POST" "/admin/users" (JStr "{}")) in
  trace !! 0%nat = Some (EvParser 0) ∧ trace !! 1%nat = Some (EvParser 1)
  ∧ params_own <$> invocations trace = [ {[ "name" := JStr "a" ]} ]
  ∧ resolveAlias Sample.admin "users" (Some "POST") = JStr "users.create".
Proof. repeat split; reflexivity. Qed.

(** An action outside the whitelist: the status is the code of the
    service-not-found error, and nothing is parsed or called. *)
Example scenario_whitelist :
  httpHandler Sample.env Sample.gateway
    (Sample.request_of "POST" "/api/comments/list" (JStr "{}"))
  = [ EvWriteHead 501 [("Content-type", JStr "application/json")];
      EvEnd (JObject CPlain
               (list_to_map
                  [ ("name", JStr "ServiceNotFoundError");
                    ("message",
                     JStr "Action 'comments.list' is not available!");
                    ("code", JNum 501) ])) ].
Proof. reflexivity. Qed.

(** The root URL is trimmed to the empty string, which no route path
    starts. *)
Example scenario_root :
  httpHandler Sample.env Sample.gateway (Sample.request_of "GET" "/" JUndefined)
  = [EvWriteHead 404 []; EvEnd (JStr "Not found")].
Proof. reflexivity. Qed.

(** ** URL splitting *)

Section SplitFacts.

Context (env : Env).

Lemma append_assoc' s t u : (s +:+ t) +:+ u = s +:+ (t +:+ u).
Proof.
  induction s as [|a s IH]; [done|].
  rewrite !append_cons. by rewrite IH.
Qed.

Lemma prefix_question b s :
  String.prefix "?" (String b s) = Ascii.eqb "?" b.
Proof.
  destruct (Ascii.eqb_spec "?" b) as [<- | Hne].
  - apply String.prefix_correct. by destruct s.
  - destruct (String.prefix "?" (String b s)) eqn:E; [|done].
    apply String.prefix_correct in E. simpl in E. by injection E as ->.
Qed.

Lemma index_question_found u rest :
  "?"%char ∉ JSString.chars u →
  String.index 0 "?" (u +:+ "?" +:+ rest) = Some (String.length u).
Proof.
  induction u as [|a u IH]; intros Hu.
  - rewrite append_nil, append_cons. cbn [String.index].
    by rewrite prefix_question.
  - rewrite append_cons. cbn [String.index]. rewrite prefix_question.
    simpl in Hu. apply not_elem_of_cons in Hu as [Hne Hu].
    destruct (Ascii.eqb_spec "?" a) as [<- | _]; [done|].
    by rewrite (IH Hu).
Qed.

Lemma index_question_missing s :
  "?"%char ∉ JSString.chars s → String.index 0 "?" s = None.
Proof.
  induction s as [|a s IH]; intros Hs; [done|].
  cbn [String.index]. rewrite prefix_question.
  simpl in Hs. apply not_elem_of_cons in Hs as [Hne Hs].
  destruct (Ascii.eqb_spec "?" a) as [<- | _]; [done|].
  by rewrite (IH Hs).
Qed.

End SplitFacts.

(** X1: the URL is cut at the first question mark that is not its first
    character: what precedes it is the path, what follows it (further
    question marks included) goes to the query-string parser; a URL without
    such a question mark is the path as a whole and has no query. *)
Theorem split_url_parts (env : Env) :
  (∀ u rest,
      u ≠ "" → "?"%char ∉ drop 1 (JSString.chars u) →
      split_url env (u +:+ "?" +:+ rest) = (u, queryString_parse env rest))
  ∧ (∀ raw,
       "?"%char ∉ drop 1 (JSString.chars raw) →
       split_url env raw = (raw, JUndefined)).
Proof.
  split.
  - intros [|a u] rest Hne Hu; [done|]. simpl in Hu.
    unfold split_url, JSString.indexOf. rewrite append_cons.
    cbn [String.index]. rewrite (index_question_found u rest Hu).
    f_equal.
    + rewrite <- append_cons.
      change (S (String.length u)) with (String.length (String a u)).
      apply substring_to_app.
    + f_equal.
      replace (S (String.length u) + 1)%nat
        with (String.length (String a u +:+ "?"))
        by (rewrite length_app; reflexivity).
      rewrite <- append_cons, <- append_assoc'. apply slice_from_app.
  - intros [|a raw] Hraw; [done|]. simpl in Hraw.
    unfold split_url, JSString.indexOf. cbn [String.index].
    by rewrite (index_question_missing raw Hraw).
Qed.

Lemma split_url_parts_witness :
  split_url Sample.env "/api/posts?page=2?x"
  = ("/api/posts", JObject CNullProto {[ "q" := JStr "page=2?x" ]})
  ∧ split_url Sample.env "?page=2" = ("?page=2", JUndefined).
Proof.
  split.
  - apply (proj1 (split_url_parts Sample.env) "/api/posts" "page=2?x");
      [done|].
    apply (bool_decide_unpack _). vm_compute. exact I.
  - apply (proj2 (split_url_parts Sample.env) "?page=2").
    apply (bool_decide_unpack _). vm_compute. exact I.
Defined.

(** ** Routes and dispatch, continued *)

Section RoutingFacts.

Context (env : Env).

Lemma startsWith_empty p : p ≠ "" → JSString.startsWith "" p = false.
Proof. by destruct p. Qed.

Lemma createRoute_path_nonempty st o r :
  createRoute env st o = Ok r → path r ≠ "".
Proof.
  intros Hr. apply createRoute_fields in Hr as (_ & _ & _ & _ & ->).
  rewrite str_or_slash. by destruct (decide _).
Qed.

Lemma createRoutes_Forall2 st l rs :
  createRoutes env st l = Ok rs ↔
  Forall2 (λ o r, createRoute env st o = Ok r) l rs.
Proof.
  revert rs. induction l as [|o l IH]; intros rs; simpl.
  - split; [by intros [= <-] | by intros ->%Forall2_nil_inv_l].
  - split.
    + destruct (createRoute env st o) as [r|] eqn:Hr; [|done].
      destruct (createRoutes env st l) as [rs'|] eqn:Hrs; [|done].
      intros [= <-]. constructor; [done | by apply IH].
    + intros (r & rs' & Hr & Hrs & ->)%Forall2_cons_inv_l.
      rewrite Hr. apply IH in Hrs. by rewrite Hrs.
Qed.


Lemma created_Ok st svc :
  created env st = Ok svc ↔
  createServer env st = Ok (svc_isHTTPS svc)
  ∧ createStatic env st = Ok (svc_serve svc)
  ∧ match set_routes st with
    | None => svc_routes svc = None
    | Some l => ∃ rs, createRoutes env st l = Ok rs ∧ svc_routes svc = Some rs
    end.
Proof.
  unfold created. destruct svc as [secure routes serve]. simpl.
  destruct (createServer env st) as [secure'|e1].
  2: { split; [done | by intros [? _]]. }
  destruct (createStatic env st) as [serve'|e2].
  2: { split; [done | by intros (_ & ? & _)]. }
  destruct (set_routes st) as [l|].
  - destruct (createRoutes env st l) as [rs|e3].
    + split.
      * intros [= <- <- <-]. eauto.
      * intros ([= <-] & [= <-] & (rs' & [= <-] & ->)). done.
    + split; [done | by intros (_ & _ & (rs' & ? & _))].
  - split.
    + by intros [= <- <- <-].
    + by intros ([= <-] & [= <-] & ->).
Qed.


Lemma dispatch_no_later routes url i ri :
  routes !! i = Some ri →
  JSString.startsWith url (path ri) = true →
  ∃ k r, (k ≤ i)%nat ∧ routes !! k = Some r ∧ dispatch routes url = Some r.
Proof.
  revert i. induction routes as [|r0 routes IH]; intros i Hi Hp; [done|].
  simpl. destruct (JSString.startsWith url (path r0)) eqn:E.
  - exists 0%nat, r0. split; [lia | done].
  - destruct i as [|i]; simpl in Hi; [injection Hi as ->; congruence|].
    destruct (IH i Hi Hp) as (k & r & Hk & Hr & Hd).
    exists (S k), r. split; [lia | done].
Qed.

Lemma append_nil_r s : s +:+ "" = s.
Proof.
  induction s as [|a s IH]; [done|]. rewrite append_cons. by rewrite IH.
Qed.

Lemma is_prefix_trans p q s : is_prefix p q → is_prefix q s → is_prefix p s.
Proof.
  intros [r1 ->] [r2 ->]. exists (r1 +:+ r2). apply append_assoc'.
Qed.

Lemma no_slash_replace_all s :
  "/"%char ∉ JSString.chars (JSString.replace_all "/" "." s).
Proof.
  rewrite chars_replace_all. intros (a & Ha & Hin)%list_elem_of_fmap.
  destruct (Ascii.eqb a "/") eqn:E; [done|].
  apply Ascii.eqb_neq in E. congruence.
Qed.

End RoutingFacts.

(** X2: a route made by [createRoute] never has an empty path, while the
    URL [/] is trimmed to the empty string before the routes are scanned: a
    request for the root is therefore never dispatched to a route of a
    created service, it goes to the static server or gets the 404. *)
Theorem root_url_unrouted (env : Env) (st : settings) (svc : service)
    (req : request) :
  created env st = Ok svc →
  trim_slash (split_url env (req_url req)).1 = "" →
  (∀ routes r, svc_routes svc = Some routes → r ∈ routes → path r ≠ "")
  ∧ httpHandler env svc req
    = match svc_serve svc with
      | Some serve => EvServeStatic :: (if serve req then [] else send404)
      | None => send404
      end.
Proof.
  intros Hc Hurl.
  assert (Hpaths : ∀ routes r, svc_routes svc = Some routes → r ∈ routes →
                               path r ≠ "").
  { intros routes r Hroutes Hin. apply created_Ok in Hc as (_ & _ & Hc).
    destruct (set_routes st) as [l|]; [|congruence].
    destruct Hc as (rs & Hrs & Hsvc). rewrite Hsvc in Hroutes.
    injection Hroutes as <-.
    apply createRoutes_Forall2 in Hrs.
    apply list_elem_of_lookup in Hin as [i Hi].
    destruct (Forall2_lookup_r _ _ _ _ _ Hrs Hi) as (o & _ & Ho).
    by apply (createRoute_path_nonempty env st o). }
  split; [done|]. unfold httpHandler.
  destruct (split_url env (req_url req)) as [u q]. simpl in Hurl.
  rewrite Hurl.
  assert (dispatch (default [] (svc_routes svc)) "" = None) as ->; [|done].
  apply dispatch_None. intros r Hr. apply startsWith_empty.
  destruct (svc_routes svc) as [routes|] eqn:Hroutes; simpl in Hr.
  - by apply (Hpaths routes).
  - by apply elem_of_nil in Hr.
Qed.

Lemma root_url_unrouted_witness :
  let st := {| set_https := JUndefined;
               set_path := None;
               set_routes :=
                 Some [ {| opt_path := Some "/"; opt_whitelist := JUndefined;
                           opt_authorization := JUndefined;
                           opt_aliases := JUndefined;
                           opt_bodyParsers := Some [("json", JBool true)] |} ];
               set_assets := JUndefined |} in
  ∃ svc, created Sample.env st = Ok svc
         ∧ httpHandler Sample.env svc (Sample.request_of "GET" "/" JUndefined)
           = [EvWriteHead 404 []; EvEnd (JStr "Not found")].
Proof.
  intros st. eexists. split; [reflexivity|].
  exact (proj2 (root_url_unrouted Sample.env st _
                  (Sample.request_of "GET" "/" JUndefined) eq_refl eq_refl)).
Defined.

(** X5: routes are tried in declared order and the first match wins, so a
    route declared after a route whose path is a prefix of its own path is
    shadowed: every URL it could take is taken by a route declared no later
    than the shorter one. *)
Theorem dispatch_shadowed (routes : list route) (i j : nat) (ri rj : route)
    (url : string) :
  (i < j)%nat →
  routes !! i = Some ri →
  routes !! j = Some rj →
  is_prefix (path ri) (path rj) →
  is_prefix (path rj) url →
  ∃ k r, (k < j)%nat ∧ routes !! k = Some r ∧ dispatch routes url = Some r.
Proof.
  intros Hij Hi Hj Hpre Hurl.
  destruct (dispatch_no_later routes url i ri Hi) as (k & r & Hk & Hr & Hd).
  - apply startsWith_spec. by apply (is_prefix_trans _ (path rj)).
  - exists k, r. split; [lia | done].
Qed.

Lemma dispatch_shadowed_witness :
  ∃ k r, (k < 1)%nat
         ∧ [Sample.make_route "/" JUndefined JUndefined None;
            Sample.admin] !! k = Some r
         ∧ dispatch [Sample.make_route "/" JUndefined JUndefined None;
                     Sample.admin] "/admin/users" = Some r.
Proof.
  apply (dispatch_shadowed
           [Sample.make_route "/" JUndefined JUndefined None; Sample.admin]
           0 1 (Sample.make_route "/" JUndefined JUndefined None)
           Sample.admin "/admin/users");
    [lia | reflexivity | reflexivity | by exists "admin" | by exists "/users"].
Defined.

(** X6: the action name made from a URL never contains a slash, whatever the
    URL and the route; and a URL that is exactly the route path, with or
    without a slash after it, gives the empty action name. *)
Theorem resolveActionName_no_slash (r : route) (url : string) :
  ("/"%char ∉ JSString.chars (resolveActionName r url))
  ∧ resolveActionName r (path r) = ""
  ∧ resolveActionName r (path r +:+ "/") = "".
Proof.
  split; [apply no_slash_replace_all|]. split.
  - unfold resolveActionName.
    assert (JSString.slice_from (String.length (path r)) (path r) = "")
      as ->; [|done].
    rewrite <- (append_nil_r (path r)) at 2. apply slice_from_app.
  - unfold resolveActionName. by rewrite slice_from_app.
Qed.

(** ** Construction of the service *)

Section ConstructionFacts.

Context (env : Env).






Lemma createRoute_parsers st o :
  createRoute env st o
  = match opt_bodyParsers o with
    | None =>
        Ok {| opts := o; authorization := opt_authorization o;
              whitelist := opt_whitelist o;
              hasWhitelist := JS.isArray (opt_whitelist o);
              aliases := opt_aliases o;
              hasAliases :=
                JS.truthy (opt_aliases o)
                && (0 <? size (JS.own_enumerable (opt_aliases o)))%nat;
              parsers := None;
              path := str_or (Some (str_or (set_path st) ""
                                    +:+ str_or (opt_path o) "")) "/" |}
    | Some bps =>
        match createParsers env bps with
        | Ok ps =>
            Ok {| opts := o; authorization := opt_authorization o;
                  whitelist := opt_whitelist o;
                  hasWhitelist := JS.isArray (opt_whitelist o);
                  aliases := opt_aliases o;
                  hasAliases :=
                    JS.truthy (opt_aliases o)
                    && (0 <? size (JS.own_enumerable (opt_aliases o)))%nat;
                  parsers := Some ps;
                  path := str_or (Some (str_or (set_path st) ""
                                        +:+ str_or (opt_path o) "")) "/" |}
        | Throw err => Throw err
        end
    end.
Proof.
  unfold createRoute. destruct (opt_bodyParsers o) as [bps|]; [|done].
  by destruct (createParsers env bps).
Qed.

End ConstructionFacts.





(** X7: a route created without aliases, or with an alias object that has
    no own key, leaves every action name as the URL gave it; a route with at
    least one alias sends every name through [resolveAlias] with the method
    of the request. *)
Theorem aliasStage_table (env : Env) (st : settings) (o : route_opts)
    (r : route) (actionName : string) (req : request) :
  createRoute env st o = Ok r →
  (JS.truthy (opt_aliases o) = false ∨ JS.own_enumerable (opt_aliases o) = ∅ →
   aliasStage r actionName req = JStr actionName)
  ∧ (JS.truthy (opt_aliases o) = true →
     JS.own_enumerable (opt_aliases o) ≠ ∅ →
     aliasStage r actionName req
     = resolveAlias r actionName (Some (req_method req))).
Proof.
  intros Hr. rewrite createRoute_parsers in Hr. unfold aliasStage.
  assert (Hhas : hasAliases r
                 = JS.truthy (opt_aliases o)
                   && (0 <? size (JS.own_enumerable (opt_aliases o)))%nat).
  { destruct (opt_bodyParsers o) as [bps|]; [|by injection Hr as <-].
    destruct (createParsers env bps); [by injection Hr as <- | done]. }
  rewrite Hhas. split.
  - intros [-> | ->]; [done|]. rewrite map_size_empty. by rewrite andb_false_r.
  - intros -> Hne. apply map_size_non_empty_iff in Hne.
    destruct (size _); [done | done].
Qed.

Lemma aliasStage_table_witness :
  ∃ r, createRoute Sample.env Sample.no_settings
         {| opt_path := None; opt_whitelist := JUndefined;
            opt_authorization := JUndefined;
            opt_aliases := JObject CPlain ∅;
            opt_bodyParsers := None |} = Ok r
       ∧ aliasStage r "constructor"
           (Sample.request_of "GET" "/constructor" JUndefined)
         = JStr "constructor".
Proof.
  eexists. split; [reflexivity|].
  apply (proj1 (aliasStage_table Sample.env Sample.no_settings
                  {| opt_path := None; opt_whitelist := JUndefined;
                     opt_authorization := JUndefined;
                     opt_aliases := JObject CPlain ∅;
                     opt_bodyParsers := None |} _
                  "constructor"
                  (Sample.request_of "GET" "/constructor" JUndefined)
                  eq_refl)).
  by right.
Defined.

(** ** The chain, stage by stage *)

Section ChainFacts.

Context (env : Env).

Lemma whitelistStage_passed r name :
  (whitelistStage env r name).2 = Ok tt ↔
  (hasWhitelist r = true → checkWhitelist env r name = Ok true).
Proof.
  unfold whitelistStage. destruct (hasWhitelist r); [|done].
  destruct (checkWhitelist env r name) as [[]|err]; simpl; split; try done.
  - intros H. by specialize (H eq_refl).
  - intros H. by specialize (H eq_refl).
Qed.

Lemma whitelistStage_Ok r name :
  (hasWhitelist r = true → checkWhitelist env r name = Ok true) →
  whitelistStage env r name = ([], Ok tt).
Proof.
  unfold whitelistStage. destruct (hasWhitelist r); [|done].
  intros H. by rewrite (H eq_refl).
Qed.

Lemma resolveStage_passed name params ep :
  (resolveStage env name params).2 = Ok ep →
  broker_getAction env name = Some ep
  ∧ ∀ validate, broker_validator env = Some validate →
                JS.truthy (ep_params ep) = true →
                validate params (ep_params ep) = Ok tt.
Proof.
  unfold resolveStage.
  destruct (broker_getAction env name) as [ep'|]; [|done].
  destruct (broker_validator env) as [validate|]; [|by intros [= ->]].
  destruct (JS.truthy (ep_params ep')) eqn:Hp.
  - cbn [Promise.then_ Promise.emit Promise.lift Promise.resolve].
    destruct (validate params (ep_params ep')) as [[]|err] eqn:Hv; [|done].
    simpl. intros [= ->]. split; [done|]. by intros ? [= <-] _.
  - intros [= ->]. split; [done|]. intros ? _ ?. congruence.
Qed.

Lemma contextStage_made params :
  contextStage env params
  = ([EvCreateContext "api-gw.rest" params;
      EvMetricStart (made_context env params)],
     Ok (made_context env params)).
Proof. done. Qed.

Lemma api_key_or query req :
  JS.or (JS.and query (JS.get query "apikey"))
        (default JUndefined (req_headers req !! "apikey"))
  = api_key query req.
Proof.
  unfold JS.or, JS.and, api_key.
  destruct (JS.truthy query) eqn:Hq; simpl; [done|]. by rewrite Hq.
Qed.

Lemma authStage_passed r req query ctx ctx' :
  (authStage env r req query ctx).2 = Ok ctx' →
  JS.truthy (authorization r) = true →
  ∃ user, call_auth env ctx {[ "apiKey" := api_key query req ]} = Ok user
          ∧ JS.truthy user = true ∧ ctx_meta_user ctx' = user.
Proof.
  unfold authStage. intros H Hauth. rewrite Hauth, api_key_or in H.
  cbn [Promise.then_ Promise.emit Promise.lift] in H.
  destruct (call_auth env ctx _) as [user|err]; [|done].
  destruct (JS.truthy user) eqn:Hu; [|done].
  simpl in H. injection H as <-. by exists user.
Qed.

Lemma invocations_callAction r actionName req query params :
  params ∈ invocations (callAction env r actionName req query) →
  params ∈ invocations (pipeline env r actionName req query).1.
Proof.
  unfold callAction, Promise.catch.
  destruct (pipeline env r actionName req query) as [t [[]|err]]; [done|].
  by rewrite invocations_app, quiet_errorHandler, app_nil_r.
Qed.

End ChainFacts.

(** X8: the gateway calls an action only after every gate before it has
    let the request through: the whitelist of the route (when it has one)
    accepts the resolved name, the broker knows an action of that name, the
    validator (when there is one and the action has a schema) accepts the
    parameters of the call, and on a route with authorization the auth
    action has returned a user, who is stored in the context. *)
Theorem invocation_guarded (env : Env) (r : route) (actionName : string)
    (req : request) (query : jsval) (params : parameters) :
  let name := aliasStage r actionName req in
  params ∈ invocations (callAction env r actionName req query) →
  (hasWhitelist r = true → checkWhitelist env r name = Ok true)
  ∧ (∃ ep, broker_getAction env name = Some ep
           ∧ ∀ validate, broker_validator env = Some validate →
                         JS.truthy (ep_params ep) = true →
                         validate params (ep_params ep) = Ok tt)
  ∧ (JS.truthy (authorization r) = true →
     ∃ req' user,
       call_auth env (made_context env params)
         {[ "apiKey" := api_key query req' ]} = Ok user
       ∧ JS.truthy user = true).
Proof.
  intros name H. apply invocations_callAction in H.
  unfold pipeline in H. fold name in H.
  apply invocations_then in H as ([] & Hw & H);
    [|apply quiet_whitelistStage].
  apply invocations_then in H as (req' & Hparse & H);
    [|apply quiet_parseStage].
  apply invocations_then in H as (ep & Hr & H);
    [|apply quiet_resolveStage].
  rewrite contextStage_made in H.
  apply invocations_then in H as (ctx0 & Hc & H); [|done].
  simpl in Hc. injection Hc as <-.
  apply invocations_then in H as (ctx & Ha & H);
    [|apply quiet_authStage].
  rewrite invocations_invokeStage in H. apply list_elem_of_singleton in H.
  rewrite <- H in *. split; [|split].
  - by apply whitelistStage_passed.
  - exists ep. by apply resolveStage_passed.
  - intros Hauth.
    destruct (authStage_passed env r req' query _ ctx Ha Hauth)
      as (user & Hu & Ht & _).
    by exists req', user.
Qed.

Lemma invocation_guarded_witness :
  checkWhitelist Sample.env Sample.public (JStr "posts.list") = Ok true
  ∧ ∃ ep, broker_getAction Sample.env (JStr "posts.list") = Some ep.
Proof.
  destruct (invocation_guarded Sample.env Sample.public "posts.list"
              (Sample.request_of "GET" "/api/posts/list" JUndefined)
              JUndefined ∅) as (Hw & (ep & Hep & _) & _).
  - change (∅ ∈ [∅ : parameters]). apply list_elem_of_here.
  - split; [by apply Hw | by exists ep].
Defined.

(** X9: a request that passes the whitelist and whose body is parsed, for a
    name the broker does not know, ends in the error handler with the same
    service-not-found error as a whitelist rejection, after the parsers have
    run; no context is created and nothing is called. *)
Theorem unknown_action (env : Env) (r : route) (actionName : string)
    (req : request) (query : jsval) (t : list event) (req' : request) :
  let name := aliasStage r actionName req in
  (hasWhitelist r = true → checkWhitelist env r name = Ok true) →
  parseStage env r req = (t, Ok req') →
  broker_getAction env name = None →
  callAction env r actionName req query
  = t ++ errorHandler env (not_available env name)
  ∧ invocations (callAction env r actionName req query) = [].
Proof.
  intros name Hw Hp Hnone.
  assert (Hcall : callAction env r actionName req query
                  = t ++ errorHandler env (not_available env name)).
  { unfold callAction, pipeline. fold name.
    rewrite (whitelistStage_Ok env r name Hw). cbn [Promise.then_].
    rewrite Hp. cbn [Promise.then_]. unfold resolveStage. rewrite Hnone.
    simpl. by rewrite app_nil_r. }
  split; [done|]. rewrite Hcall, invocations_app, quiet_errorHandler.
  pose proof (quiet_parseStage env r req) as Hq. unfold quiet in Hq.
  rewrite Hp in Hq. simpl in Hq. by rewrite Hq.
Qed.

Lemma unknown_action_witness :
  httpHandler Sample.env Sample.gateway
    (Sample.request_of "POST" "/admin/nothing" (JStr "{}"))
  = [EvParser 0; EvParser 1]
    ++ errorHandler Sample.env (not_available Sample.env (JStr "nothing")).
Proof.
  apply (unknown_action Sample.env Sample.admin "nothing"
           (Sample.request_of "POST" "/admin/nothing" (JStr "{}"))
           JUndefined [EvParser 0; EvParser 1]
           (Sample.request_of "POST" "/admin/nothing"
              (JObject CPlain {[ "name" := JStr "a" ]})));
    [discriminate | reflexivity | reflexivity].
Defined.

(** X10: when the validator rejects the merged parameters the chain ends in
    the error handler with the error the validator threw, right after the
    validation: no context is created and nothing is called; and without a
    validator, or for an action without a schema, nothing is validated. *)
Theorem validation_failure (env : Env) (r : route) (actionName : string)
    (req : request) (query : jsval) (t : list event) (req' : request)
    (ep : endpoint) :
  let name := aliasStage r actionName req in
  let params := mergeParams query (req_body req') in
  (hasWhitelist r = true → checkWhitelist env r name = Ok true) →
  parseStage env r req = (t, Ok req') →
  broker_getAction env name = Some ep →
  (∀ validate err,
      broker_validator env = Some validate →
      JS.truthy (ep_params ep) = true →
      validate params (ep_params ep) = Throw err →
      callAction env r actionName req query
      = t ++ [EvValidate params (ep_params ep)] ++ errorHandler env err)
  ∧ (broker_validator env = None ∨ JS.truthy (ep_params ep) = false →
     resolveStage env name params = ([], Ok ep)).
Proof.
  intros name params Hw Hp Hep. split.
  - intros validate err Hval Hschema Hthrow.
    unfold callAction, pipeline. fold name.
    rewrite (whitelistStage_Ok env r name Hw). cbn [Promise.then_].
    rewrite Hp. cbn [Promise.then_]. fold params. unfold resolveStage.
    rewrite Hep, Hval, Hschema.
    cbn [Promise.then_ Promise.emit Promise.lift]. rewrite Hthrow.
    simpl. by rewrite <- app_assoc.
  - unfold resolveStage. rewrite Hep. intros [-> | Hschema]; [done|].
    destruct (broker_validator env); [by rewrite Hschema | done].
Qed.

Lemma validation_failure_witness :
  callAction Guarded.env Guarded.secure "users.create"
    (Sample.request_of "GET" "/secure/users/create" JUndefined) JUndefined
  = [EvValidate ∅ (ep_params Guarded.users_create)]
    ++ errorHandler Guarded.env Guarded.invalid.
Proof.
  exact (proj1 (validation_failure Guarded.env Guarded.secure "users.create"
                  (Sample.request_of "GET" "/secure/users/create" JUndefined)
                  JUndefined []
                  (Sample.request_of "GET" "/secure/users/create" JUndefined)
                  Guarded.users_create
                  ltac:(discriminate) eq_refl eq_refl)
           Guarded.validate Guarded.invalid eq_refl eq_refl eq_refl).
Defined.

(** X11: on a route with authorization the auth action is called with the
    API key of the request (the [apikey] query parameter when it is set, the
    [apikey] header otherwise); when it returns no user the chain ends in the
    error handler with the error Forbidden, code 403, after the context was
    created, and the action is not called. *)
Theorem unauthorized (env : Env) (r : route) (actionName : string)
    (req : request) (query : jsval) (t t' : list event) (req' : request)
    (ep : endpoint) (user : jsval) :
  let name := aliasStage r actionName req in
  let params := mergeParams query (req_body req') in
  let key : gmap string jsval := {[ "apiKey" := api_key query req' ]} in
  (hasWhitelist r = true → checkWhitelist env r name = Ok true) →
  parseStage env r req = (t, Ok req') →
  resolveStage env name params = (t', Ok ep) →
  JS.truthy (authorization r) = true →
  call_auth env (made_context env params) key = Ok user →
  JS.truthy user = false →
  callAction env r actionName req query
  = t ++ t'
    ++ [EvCreateContext "api-gw.rest" params;
        EvMetricStart (made_context env params); EvCallAuth key]
    ++ errorHandler env (new_CustomError env "Forbidden" 403)
  ∧ invocations (callAction env r actionName req query) = [].
Proof.
  intros name params key Hw Hp Hr Hauth Hcall Huser.
  assert (Heq : callAction env r actionName req query
                = t ++ t'
                  ++ [EvCreateContext "api-gw.rest" params;
                      EvMetricStart (made_context env params); EvCallAuth key]
                  ++ errorHandler env (new_CustomError env "Forbidden" 403)).
  { unfold callAction, pipeline. fold name.
    rewrite (whitelistStage_Ok env r name Hw). cbn [Promise.then_].
    rewrite Hp. cbn [Promise.then_]. fold params. rewrite Hr.
    cbn [Promise.then_]. rewrite contextStage_made. cbn [Promise.then_].
    unfold authStage. rewrite Hauth, api_key_or. fold key.
    cbn [Promise.then_ Promise.emit Promise.lift]. rewrite Hcall, Huser.
    simpl. by rewrite <- !app_assoc. }
  split; [done|]. rewrite Heq, !invocations_app, quiet_errorHandler.
  pose proof (quiet_parseStage env r req) as Hq1. unfold quiet in Hq1.
  rewrite Hp in Hq1. simpl in Hq1.
  pose proof (quiet_resolveStage env name params) as Hq2. unfold quiet in Hq2.
  rewrite Hr in Hq2. simpl in Hq2. by rewrite Hq1, Hq2.
Qed.

Lemma unauthorized_witness :
  invocations
    (callAction Guarded.env Guarded.secure "posts.list"
       (Sample.request_of "GET" "/secure/posts/list" JUndefined) JUndefined)
  = [].
Proof.
  exact (proj2 (unauthorized Guarded.env Guarded.secure "posts.list"
                  (Sample.request_of "GET" "/secure/posts/list" JUndefined)
                  JUndefined [] []
                  (Sample.request_of "GET" "/secure/posts/list" JUndefined)
                  Sample.posts_list JNull
                  ltac:(discriminate) eq_refl eq_refl eq_refl eq_refl
                  eq_refl)).
Defined.

(** ** One response per request *)

Create HintDb silent.

Section EndingFacts.

Context (env : Env).

Lemma endings_app t1 t2 : endings (t1 ++ t2) = (endings t1 + endings t2)%nat.
Proof. unfold endings. by rewrite filter_app, List.length_app. Qed.

Lemma silent_resolve {A} (a : A) : silent (Promise.resolve a).
Proof. done. Qed.

Lemma silent_reject {A} err : silent (@Promise.reject A err).
Proof. done. Qed.

Lemma silent_lift {A} (x : result A) : silent (Promise.lift x).
Proof. done. Qed.

Lemma silent_emit ev : is_ending ev = false → silent (Promise.emit ev).
Proof.
  intros H. unfold silent, endings. simpl.
  rewrite filter_cons_False by congruence. done.
Qed.

Lemma silent_then {A B} (c : Chain A) (f : A → Chain B) :
  silent c → (∀ a, silent (f a)) → silent (Promise.then_ c f).
Proof.
  unfold silent. destruct c as [t [a|err]]; cbn [Promise.then_ fst]; [|done].
  intros Ht Hf. specialize (Hf a). destruct (f a) as [t' x].
  cbn [fst] in *. rewrite endings_app. lia.
Qed.

Hint Resolve silent_resolve silent_reject silent_lift silent_then : silent.
Hint Extern 1 (silent (Promise.emit _)) =>
  (apply silent_emit; reflexivity) : silent.

Local Ltac silent_cases :=
  repeat match goal with
         | |- silent (if ?c then _ else _) => destruct c
         | |- silent (match ?x with _ => _ end) => destruct x
         end;
  eauto 10 with silent.

Lemma silent_whitelistStage r name : silent (whitelistStage env r name).
Proof. unfold whitelistStage. silent_cases. Qed.

Lemma silent_mapSeries ps : ∀ i req, silent (mapSeries env i ps req).
Proof.
  induction ps as [|p ps IH]; intros i req; cbn [mapSeries]; [done|].
  apply silent_then; [auto with silent|]. intros _.
  destruct (p req) as [req' err]. destruct (JS.truthy err); auto with silent.
Qed.

Lemma silent_parseStage r req : silent (parseStage env r req).
Proof.
  unfold parseStage. destruct (parsers r) as [ps|]; [|done].
  destruct (_ && _); [apply silent_mapSeries | done].
Qed.

Lemma silent_resolveStage name params : silent (resolveStage env name params).
Proof. unfold resolveStage. silent_cases. Qed.

Lemma silent_contextStage params : silent (contextStage env params).
Proof. done. Qed.

Lemma silent_authStage r req query ctx : silent (authStage env r req query ctx).
Proof.
  unfold authStage. destruct (JS.truthy (authorization r)); [|done].
  apply silent_then; [auto with silent|]. intros _.
  apply silent_then; [auto with silent|]. intros user. silent_cases.
Qed.

Lemma single_emit ev : single (Promise.emit ev).
Proof.
  split; [|done]. unfold endings. simpl.
  destruct (decide (is_ending ev = true)).
  - by rewrite filter_cons_True.
  - rewrite filter_cons_False by done. simpl. lia.
Qed.

Lemma single_then_l {A B} (c : Chain A) (f : A → Chain B) :
  silent c → (∀ a, single (f a)) → single (Promise.then_ c f).
Proof.
  unfold silent, single. destruct c as [t [a|err]]; cbn [Promise.then_ fst snd].
  - intros Ht Hf. destruct (Hf a) as [H1 H2]. destruct (f a) as [t' x].
    cbn [fst snd] in *. rewrite endings_app. split; [lia|].
    intros err Hx. rewrite (H2 err Hx). lia.
  - intros Ht _. split; [lia | done].
Qed.

Lemma single_then_emit {A} (c : Chain A) ev :
  single c → is_ending ev = false →
  single (Promise.then_ c (λ _, Promise.emit ev)).
Proof.
  unfold single. destruct c as [t [a|err]]; cbn [Promise.then_ fst snd].
  - intros [H1 _] Hev. cbn [Promise.emit fst snd]. rewrite endings_app.
    pose proof (silent_emit ev Hev) as Hs. unfold silent in Hs. simpl in Hs.
    rewrite Hs. split; [lia | done].
  - intros [H1 H2] _. split; [done|]. intros e _. by apply (H2 err).
Qed.

Lemma single_try_reject {A} (c : Chain A) err :
  single c → single (Promise.try_catch c (λ _, Promise.reject err)).
Proof.
  unfold single. destruct c as [t [a|e]]; cbn [Promise.try_catch fst snd].
  - done.
  - intros [H1 H2]. cbn [Promise.reject]. cbn [fst snd].
    rewrite app_nil_r. split; [done|]. intros _ _. by apply (H2 e).
Qed.

Lemma single_encode responseType data : single (encode env responseType data).
Proof.
  unfold encode, set_content_type, end_json.
  repeat match goal with
         | |- single (if ?c then _ else _) => destruct c
         end;
    repeat (apply single_then_l; [auto with silent | intros ?]);
    apply single_emit.
Qed.

Lemma single_respond ctx ep data : single (respond env ctx ep data).
Proof.
  unfold respond.
  apply single_then_l; [auto with silent|]. intros _.
  apply single_then_l; [silent_cases|]. intros _.
  apply single_then_emit; [|done].
  apply single_try_reject, single_encode.
Qed.

Lemma single_invokeStage ctx ep params :
  single (invokeStage env ctx ep params).
Proof.
  unfold invokeStage.
  apply single_then_l; [auto with silent|]. intros _.
  apply single_then_l; [auto with silent|]. intros data.
  apply single_respond.
Qed.

Lemma single_pipeline r actionName req query :
  single (pipeline env r actionName req query).
Proof.
  unfold pipeline.
  apply single_then_l; [apply silent_whitelistStage|]. intros _.
  apply single_then_l; [apply silent_parseStage|]. intros req'.
  apply single_then_l; [apply silent_resolveStage|]. intros ep.
  apply single_then_l; [apply silent_contextStage|]. intros ctx0.
  apply single_then_l; [apply silent_authStage|]. intros ctx.
  apply single_invokeStage.
Qed.

Lemma endings_errorHandler err : (endings (errorHandler env err) ≤ 1)%nat.
Proof.
  destruct (errorHandler_cases env err) as [-> | ->]; [vm_compute; lia|].
  unfold error_body. destruct (JSON_stringify env _ _); [|vm_compute; lia].
  destruct (error_metrics_cases err) as [-> | ->]; vm_compute; lia.
Qed.

Lemma endings_callAction r actionName req query :
  (endings (callAction env r actionName req query) ≤ 1)%nat.
Proof.
  unfold callAction, Promise.catch.
  destruct (single_pipeline r actionName req query) as [H1 H2].
  destruct (pipeline env r actionName req query) as [t [[]|err]]; [done|].
  cbn [fst snd] in *. rewrite endings_app, (H2 err eq_refl).
  apply endings_errorHandler.
Qed.

End EndingFacts.

(** X12: whatever the request and the collaborators do, the handler ends
    the response at most once: the events of a request never contain two
    calls of [res.end], or a call of [res.end] and a piped stream; in
    particular a response that was ended by the encoder is never followed by
    an error response, and a rejected chain has not ended the response
    before the error handler runs. *)
Theorem response_ended_once (env : Env) (svc : service) (req : request) :
  (endings (httpHandler env svc req) ≤ 1)%nat
  ∧ (∀ r actionName query,
       (endings (callAction env r actionName req query) ≤ 1)%nat
       ∧ ∀ t err, pipeline env r actionName req query = (t, Throw err) →
                  endings t = 0%nat).
Proof.
  split.
  - unfold httpHandler. destruct (split_url env (req_url req)) as [u q].
    destruct (dispatch _ _) as [r|]; [apply endings_callAction|].
    destruct (svc_serve svc) as [serve|]; [|vm_compute; lia].
    destruct (serve req); vm_compute; lia.
  - intros r actionName query. split; [apply endings_callAction|].
    intros t err Hp.
    destruct (single_pipeline env r actionName req query) as [_ H].
    rewrite Hp in H. by apply (H err).
Qed.

Lemma response_ended_once_witness :
  endings [EvParser 0] = 0%nat.
Proof.
  exact (proj2 (proj2 (response_ended_once Sample.env Sample.gateway
                         (Sample.request_of "POST" "/admin/users"
                            (JStr "{oops")))
                  Sample.admin "users" JUndefined)
           [EvParser 0]
           (new_InvalidRequestBodyError Sample.env
              (JStr "{oops") (JStr "Unexpected token"))
           eq_refl).
Defined.

(** X13: which values reach which branch of the encoder: the first branch
    takes [undefined] and [null], the second the buffers, the string branch
    the primitive strings only (a boxed string is an object), the last
    branch the booleans and the numbers only; arrays, functions and regular
    expressions are always serialized as JSON by the object branch, whose
    [Array.isArray] test adds nothing to [_.isObject]. *)
Theorem selected_by_shape (data : jsval) :
  (selected data = BrNull ↔ data = JUndefined ∨ data = JNull)
  ∧ (selected data = BrBuffer ↔ ∃ bytes, data = JBuffer bytes)
  ∧ (selected data = BrString ↔ ∃ s, data = JStr s)
  ∧ (selected data = BrOther ↔ (∃ b, data = JBool b) ∨ ∃ n, data = JNum n)
  ∧ (selected data = BrStream → JS.isStream data = true)
  ∧ (JS.isArray data = true ∨ JS.isRegExp data = true
     ∨ (∃ name, data = JFunction name) → selected data = BrObject)
  ∧ (JS.isArray data = true → JS.isObject data = true).
Proof.
  repeat split.
  - destruct data as [| | | | | | | | |c props]; try (by auto); try done.
    unfold selected. simpl.
    by repeat match goal with
              | |- context [if ?c then _ else _] => destruct c
              end.
  - by intros [-> | ->].
  - destruct data as [| | | | | | |bytes| |c props]; try done; [by eauto|].
    unfold selected. simpl.
    by repeat match goal with
              | |- context [if ?c then _ else _] => destruct c
              end.
  - by intros [bytes ->].
  - destruct data as [| | | |s| | | | |c props]; try done; [by eauto|].
    unfold selected. simpl.
    by repeat match goal with
              | |- context [if ?c then _ else _] => destruct c
              end.
  - by intros [s ->].
  - destruct data as [| |b|n| | | | | |c props]; try done; [by eauto..|].
    unfold selected. simpl.
    by repeat match goal with
              | |- context [if ?c then _ else _] => destruct c
              end.
  - by intros [[b ->] | [n ->]].
  - destruct data as [| | | | | | | | |c props]; try done.
    unfold selected. simpl.
    destruct (JS.loose_eq_string _ _); [done|]. by destruct c.
  - intros [H | [H | [name ->]]]; [by destruct data..|done].
  - by destruct data.
Qed.

Lemma selected_by_shape_witness :
  selected (JObject (CString "text") ∅) = BrObject
  ∧ JS.isObject (JArray []) = true.
Proof.
  split.
  - reflexivity.
  - exact (proj2 (proj2 (proj2 (proj2 (proj2 (proj2
             (selected_by_shape (JArray [])))))))
             eq_refl).
Defined.

(** ** Further edge cases *)

Section EdgeFacts.

Context (env : Env).

Lemma mapSeries_prefix ps : ∀ i req,
  ∃ k, (k ≤ length ps)%nat
       ∧ (mapSeries env i ps req).1 = EvParser <$> seq i k
       ∧ match (mapSeries env i ps req).2 with
         | Ok req' => k = length ps ∧ req' = thread ps req
         | Throw _ => (0 < k)%nat
         end.
Proof.
  induction ps as [|p ps IH]; intros i req.
  - exists 0%nat. by repeat split.
  - cbn [mapSeries]. change (thread (p :: ps) req) with (thread ps (p req).1).
    destruct (IH (S i) (p req).1) as (k & Hk & Htrace & Hres).
    destruct (p req) as [req' err]. cbn [fst snd] in *.
    destruct (JS.truthy err).
    + exists 1%nat. simpl. repeat split; lia.
    + exists (S k). cbn [Promise.then_ Promise.emit].
      destruct (mapSeries env (S i) ps req') as [t x]. cbn [fst snd] in *.
      split; [simpl; lia|]. split; [by rewrite Htrace|].
      destruct x; [|lia]. destruct Hres as [-> ->]. done.
Qed.

End EdgeFacts.

(** X14: for every request the calls of body parsers are an initial segment
    of the parsers of the route, each called once and in order; when the
    stage succeeds either none was called (the method carries no body) or
    all of them were, and the request that goes on is the one they left;
    when it fails at least one was called. *)
Theorem parser_calls_prefix (env : Env) (r : route) (req : request) :
  let ps := default [] (parsers r) in
  ∃ k, (k ≤ length ps)%nat
       ∧ (parseStage env r req).1 = EvParser <$> seq 0 k
       ∧ match (parseStage env r req).2 with
         | Ok req' =>
             (k = 0%nat ∧ req' = req) ∨ (k = length ps ∧ req' = thread ps req)
         | Throw _ => (0 < k)%nat
         end.
Proof.
  intros ps. unfold parseStage. subst ps.
  destruct (parsers r) as [ps|]; simpl.
  - destruct (has_body_method (req_method req) && (0 <? length ps)%nat).
    + destruct (mapSeries_prefix env ps 0 req) as (k & Hk & Ht & Hres).
      exists k. split; [done|]. split; [done|].
      destruct (mapSeries env 0 ps req).2; [by right | done].
    + exists 0%nat. split; [lia|]. split; [done|]. by left.
  - exists 0%nat. split; [lia|]. split; [done|]. by left.
Qed.

(** X15: an empty whitelist array is a whitelist: a route created with
    [whitelist: []] rejects every request with the service-not-found error,
    before any parser runs and without calling anything. *)
Theorem empty_whitelist (env : Env) (st : settings) (o : route_opts)
    (r : route) (actionName : string) (req : request) (query : jsval) :
  createRoute env st o = Ok r →
  opt_whitelist o = JArray [] →
  callAction env r actionName req query
  = errorHandler env (not_available env (aliasStage r actionName req))
  ∧ invocations (callAction env r actionName req query) = [].
Proof.
  intros Hr Hwl.
  apply createRoute_fields in Hr as (Hw & Hhas & _).
  rewrite Hwl in Hw, Hhas.
  assert (Hcall : callAction env r actionName req query
                  = errorHandler env
                      (not_available env (aliasStage r actionName req))).
  { unfold callAction, pipeline, whitelistStage, checkWhitelist.
    by rewrite Hhas, Hw. }
  split; [done|]. rewrite Hcall. apply quiet_errorHandler.
Qed.

Lemma empty_whitelist_witness :
  ∃ r, createRoute Sample.env Sample.no_settings
         {| opt_path := Some "/api"; opt_whitelist := JArray [];
            opt_authorization := JUndefined; opt_aliases := JUndefined;
            opt_bodyParsers := None |} = Ok r
       ∧ invocations
           (callAction Sample.env r "posts.list"
              (Sample.request_of "GET" "/api/posts/list" JUndefined)
              JUndefined) = [].
Proof.
  eexists. split; [reflexivity|].
  exact (proj2 (empty_whitelist Sample.env Sample.no_settings
                  {| opt_path := Some "/api"; opt_whitelist := JArray [];
                     opt_authorization := JUndefined;
                     opt_aliases := JUndefined;
                     opt_bodyParsers := None |} _ "posts.list"
                  (Sample.request_of "GET" "/api/posts/list" JUndefined)
                  JUndefined eq_refl eq_refl)).
Defined.
